(** * common_utils.h : timespec arithmetic, logging lock wrappers,
      bounded string helpers

    A shallow embedding of [src/include/common_utils.h] and the
    properties its specification states about it.

    Integers are modelled as [Z] with the wrap-around of the C type
    written out at every place the source converts or computes in a
    fixed width (LP64: [time_t] and [long] are 64-bit signed,
    [size_t] and [nsecs_elapsed_t] 64-bit unsigned, [int] 32-bit signed). *)

From Stdlib Require Import ZArith Lia List Bool String.
From Stdlib Require Import Init.Byte.
Import ListNotations.

Local Open Scope Z_scope.

(** ** Machine integers *)

Module CInt.

Definition two64 : Z := 18446744073709551616.
Definition two63 : Z := 9223372036854775808.
Definition two32 : Z := 4294967296.
Definition two31 : Z := 2147483648.

(** Conversion to a 64-bit unsigned type ([uint64_t], [size_t]). *)
Definition u64 (z : Z) : Z := z mod two64.

(** Conversion to a 64-bit signed type ([time_t], [long]). *)
Definition s64 (z : Z) : Z := (z + two63) mod two64 - two63.

(** Conversion to [int]. *)
Definition s32 (z : Z) : Z := (z + two31) mod two32 - two31.

Definition in_u64 (z : Z) : Prop := 0 <= z < two64.
Definition in_s64 (z : Z) : Prop := - two63 <= z < two63.
Definition in_s32 (z : Z) : Prop := - two31 <= z < two31.

End CInt.
Import CInt.

(** ** Time arithmetic *)

(** [struct timespec] of <time.h>. *)
Record timespec : Type := mk_timespec { tv_sec : Z; tv_nsec : Z }.

(** Modelled from the spec: [nsecs_elapsed_t] and [NS_PER_SEC] are declared
    in gsh_types.h, which is not part of the sources at hand.  The spec's
    ElapsedNanos is a 64-bit nanosecond counter and its conversion factor is
    1_000_000_000; the source's remark that [timespec_to_nsecs] works
    "until 2554" (1970 + 584 years) fixes the counter as unsigned. *)
Definition NS_PER_SEC : Z := 1000000000.

Definition nsecs_elapsed_t : Type := Z.

(** The exact flattened value of a timespec, the specification's
    [seconds * 1_000_000_000 + nanoseconds] before any fixed-width
    arithmetic; [timespec_to_nsecs] below is what the source computes. *)
Definition flat (t : timespec) : Z := tv_sec t * NS_PER_SEC + tv_nsec t.

(** A timespec as the C type holds it. *)
Definition wf_timespec (t : timespec) : Prop :=
  in_s64 (tv_sec t) /\ in_s64 (tv_nsec t).

(** Nanosecond field inside [0, 10^9). *)
Definition normalized (t : timespec) : Prop := 0 <= tv_nsec t < NS_PER_SEC.

Definition normalizedb (t : timespec) : bool :=
  (0 <=? tv_nsec t) && (tv_nsec t <? NS_PER_SEC).

(** [timespec_diff]: both branches compute in [nsecs_elapsed_t]; the signed
    differences are converted to the unsigned type before the product and
    the sum. *)
Definition timespec_diff (start end_ : timespec) : nsecs_elapsed_t :=
  if (tv_sec end_ >? tv_sec start)
     || ((tv_sec end_ =? tv_sec start) && (tv_nsec end_ >=? tv_nsec start))
  then
    u64 (u64 (u64 (s64 (tv_sec end_ - tv_sec start)) * NS_PER_SEC)
         + u64 (s64 (tv_nsec end_ - tv_nsec start)))
  else
    u64 (u64 (u64 (s64 (tv_sec start - tv_sec end_)) * NS_PER_SEC)
         + u64 (s64 (tv_nsec start - tv_nsec end_))).

(** Which branch [timespec_diff] takes: the first when [end_] is not
    earlier than [start], seconds first, then nanoseconds. *)
Definition not_earlier (start end_ : timespec) : bool :=
  (tv_sec end_ >? tv_sec start)
  || ((tv_sec end_ =? tv_sec start) && (tv_nsec end_ >=? tv_nsec start)).

(** [timespec_to_nsecs]. *)
Definition timespec_to_nsecs (t : timespec) : nsecs_elapsed_t :=
  u64 (u64 (u64 (tv_sec t) * NS_PER_SEC) + u64 (tv_nsec t)).

(** [nsecs_to_timespec]: the out-parameter is returned.  [interval] is
    unsigned, so the division and the remainder are those of [Z]. *)
Definition nsecs_to_timespec (interval : nsecs_elapsed_t) : timespec :=
  {| tv_sec := s64 (interval / NS_PER_SEC);
     tv_nsec := s64 (interval mod NS_PER_SEC) |}.

(** [timespec_add_nsecs]: the updated [*timespec] is returned.  The test
    [tv_nsec > NS_PER_SEC] compares in the unsigned type. *)
Definition timespec_add_nsecs (interval : nsecs_elapsed_t) (t : timespec)
  : timespec :=
  let sec1 := s64 (u64 (u64 (tv_sec t) + interval / NS_PER_SEC)) in
  let nsec1 := s64 (u64 (u64 (tv_nsec t) + interval mod NS_PER_SEC)) in
  if u64 nsec1 >? NS_PER_SEC then
    {| tv_sec := s64 (u64 (u64 sec1 + u64 nsec1 / NS_PER_SEC));
       tv_nsec := s64 (u64 nsec1 mod NS_PER_SEC) |}
  else
    {| tv_sec := sec1; tv_nsec := nsec1 |}.

(** [timespec_sub_nsecs]: the updated [*t] is returned. *)
Definition timespec_sub_nsecs (interval : nsecs_elapsed_t) (t : timespec)
  : timespec :=
  let ts := nsecs_to_timespec interval in
  if tv_nsec ts >? tv_nsec t then
    {| tv_sec := s64 (tv_sec t - s64 (tv_sec ts + 1));
       tv_nsec := s64 (tv_nsec ts - tv_nsec t) |}
  else
    {| tv_sec := s64 (tv_sec t - tv_sec ts);
       tv_nsec := s64 (tv_nsec t - tv_nsec ts) |}.

(** [gsh_time_cmp]. *)
Definition gsh_time_cmp (t1 t2 : timespec) : Z :=
  if tv_sec t1 <? tv_sec t2 then -1
  else if tv_sec t1 >? tv_sec t2 then 1
  else if tv_nsec t1 <? tv_nsec t2 then -1
  else if tv_nsec t1 >? tv_nsec t2 then 1
  else 0.

(** ** Process effects: diagnostics and abort *)

(** Modelled from the spec: [LogFullDebug] and [LogCrit] come from log.h,
    which is not part of the sources at hand.  The logging collaborator
    accepts a severity, a component tag, a format string and the arguments
    (call-site identity, error code); nothing it returns is consumed.  A call
    is recorded in the order it is made. *)
Inductive log_levels : Type := NIV_CRIT | NIV_FULL_DEBUG.

Inductive log_components : Type := COMPONENT_MAIN | COMPONENT_RW_LOCK.

Inductive log_arg : Type :=
| ArgInt (i : Z)
| ArgPtr (p : Z)
| ArgStr (s : string).

Record log_call : Type := mk_log_call {
  log_level : log_levels;
  log_component : log_components;
  log_format : string;
  log_args : list log_arg
}.

(** What the preprocessor supplies at a use of a macro: the argument's
    spelling ([#_lock]), [__FILE__] and [__LINE__]. *)
Record call_site : Type := mk_call_site {
  site_expr : string;
  site_file : string;
  site_line : Z
}.

(** How a piece of code ends: it returns to its caller or the process is
    gone ([abort]). *)
Inductive outcome (A : Type) : Type :=
| Returned (a : A)
| Aborted.
Arguments Returned {A} a.
Arguments Aborted {A}.

Definition ptr : Type := Z.

Inductive clockid_t : Type := CLOCK_REALTIME.

(** The platform underneath the header: the pthread primitives and the clock
    source.  Each call sees the state of the platform, changes it and hands
    back its [int] result; [clock_gettime] also hands back the content of
    [*ts] after the call. *)
Class Platform : Type := {
  world : Type;
  pthread_rwlock_init : ptr -> ptr -> world -> Z * world;
  pthread_rwlock_destroy : ptr -> world -> Z * world;
  pthread_rwlock_wrlock : ptr -> world -> Z * world;
  pthread_rwlock_rdlock : ptr -> world -> Z * world;
  pthread_rwlock_unlock : ptr -> world -> Z * world;
  pthread_mutex_lock : ptr -> world -> Z * world;
  pthread_mutex_unlock : ptr -> world -> Z * world;
  pthread_mutex_init : ptr -> ptr -> world -> Z * world;
  pthread_mutex_destroy : ptr -> world -> Z * world;
  pthread_cond_init : ptr -> ptr -> world -> Z * world;
  pthread_cond_destroy : ptr -> world -> Z * world;
  clock_gettime : clockid_t -> timespec -> world -> (Z * timespec) * world
}.

Section Process.

Context {P : Platform}.

Record state : Type := mk_state {
  st_world : world;
  st_log : list log_call
}.

Definition M (A : Type) : Type := state -> outcome A * state.

Definition ret {A : Type} (a : A) : M A := fun s => (Returned a, s).

Definition bind {A B : Type} (m : M A) (k : A -> M B) : M B :=
  fun s =>
    match m s with
    | (Returned a, s') => k a s'
    | (Aborted, s') => (Aborted, s')
    end.

Definition abort {A : Type} : M A := fun s => (Aborted, s).

(** A call of a platform primitive. *)
Definition call {A : Type} (f : world -> A * world) : M A :=
  fun s =>
    let (a, w) := f (st_world s) in
    (Returned a, {| st_world := w; st_log := st_log s |}).

Definition emit (l : log_levels) (c : log_components) (fmt : string)
           (args : list log_arg) : M unit :=
  fun s =>
    (Returned tt,
     {| st_world := st_world s;
        st_log := st_log s ++ [mk_log_call l c fmt args] |}).

Definition LogFullDebug := emit NIV_FULL_DEBUG.
Definition LogCrit := emit NIV_CRIT.

End Process.

Declare Scope proc_scope.
Delimit Scope proc_scope with proc.
Notation "x <- m ;; k" := (bind m (fun x => k))
  (at level 61, m at next level, right associativity) : proc_scope.
Notation "m ;; k" := (bind m (fun _ => k))
  (at level 61, right associativity) : proc_scope.

(** [assert] of <assert.h>: nothing when the translation unit is compiled
    with [NDEBUG], otherwise a failed assertion ends in [abort]. *)
Definition assert {P : Platform} (NDEBUG : bool) (c : bool) : M unit :=
  if NDEBUG then ret tt else if c then ret tt else abort.

(** ** Logging wrappers of the pthread primitives *)

Section InstrumentedSync.

Context {P : Platform}.

Local Open Scope string_scope.
Local Open Scope Z_scope.
Local Open Scope proc_scope.

(** The arguments every diagnostic of a wrapper ends with:
    [_lock, #_lock, __FILE__, __LINE__]. *)
Definition site_args (obj : ptr) (cs : call_site) : list log_arg :=
  [ArgPtr obj; ArgStr (site_expr cs); ArgStr (site_file cs);
   ArgInt (site_line cs)].

Definition PTHREAD_RWLOCK_init (_lock _attr : ptr) (cs : call_site) : M unit :=
  rc <- call (pthread_rwlock_init _lock _attr) ;;
  if rc =? 0 then
    LogFullDebug COMPONENT_RW_LOCK "Init rwlock %p (%s) at %s:%d"
                 (site_args _lock cs)
  else
    LogCrit COMPONENT_RW_LOCK "Error %d, Init rwlock %p (%s) at %s:%d"
            (ArgInt rc :: site_args _lock cs) ;;
    abort.

Definition PTHREAD_RWLOCK_destroy (_lock : ptr) (cs : call_site) : M unit :=
  rc <- call (pthread_rwlock_destroy _lock) ;;
  if rc =? 0 then
    LogFullDebug COMPONENT_RW_LOCK "Destroy mutex %p (%s) at %s:%d"
                 (site_args _lock cs)
  else
    LogCrit COMPONENT_RW_LOCK "Error %d, Destroy mutex %p (%s) at %s:%d"
            (ArgInt rc :: site_args _lock cs) ;;
    abort.

Definition PTHREAD_RWLOCK_wrlock (_lock : ptr) (cs : call_site) : M unit :=
  rc <- call (pthread_rwlock_wrlock _lock) ;;
  if rc =? 0 then
    LogFullDebug COMPONENT_RW_LOCK "Got write lock on %p (%s) at %s:%d"
                 (site_args _lock cs)
  else
    LogCrit COMPONENT_RW_LOCK "Error %d, write locking %p (%s) at %s:%d"
            (ArgInt rc :: site_args _lock cs) ;;
    abort.

Definition PTHREAD_RWLOCK_rdlock (_lock : ptr) (cs : call_site) : M unit :=
  rc <- call (pthread_rwlock_rdlock _lock) ;;
  if rc =? 0 then
    LogFullDebug COMPONENT_RW_LOCK "Got read lock on %p (%s) at %s:%d"
                 (site_args _lock cs)
  else
    LogCrit COMPONENT_RW_LOCK "Error %d, read locking %p (%s) at %s:%d"
            (ArgInt rc :: site_args _lock cs) ;;
    abort.

Definition PTHREAD_RWLOCK_unlock (_lock : ptr) (cs : call_site) : M unit :=
  rc <- call (pthread_rwlock_unlock _lock) ;;
  if rc =? 0 then
    LogFullDebug COMPONENT_RW_LOCK "Unlocked %p (%s) at %s:%d"
                 (site_args _lock cs)
  else
    LogCrit COMPONENT_RW_LOCK "Error %d, unlocking %p (%s) at %s:%d"
            (ArgInt rc :: site_args _lock cs) ;;
    abort.

Definition PTHREAD_MUTEX_lock (_mtx : ptr) (cs : call_site) : M unit :=
  rc <- call (pthread_mutex_lock _mtx) ;;
  if rc =? 0 then
    LogFullDebug COMPONENT_RW_LOCK "Acquired mutex %p (%s) at %s:%d"
                 (site_args _mtx cs)
  else
    LogCrit COMPONENT_RW_LOCK "Error %d, acquiring mutex %p (%s) at %s:%d"
            (ArgInt rc :: site_args _mtx cs) ;;
    abort.

Definition PTHREAD_MUTEX_unlock (_mtx : ptr) (cs : call_site) : M unit :=
  rc <- call (pthread_mutex_unlock _mtx) ;;
  if rc =? 0 then
    LogFullDebug COMPONENT_RW_LOCK "Released mutex %p (%s) at %s:%d"
                 (site_args _mtx cs)
  else
    LogCrit COMPONENT_RW_LOCK "Error %d, releasing mutex %p (%s) at %s:%d"
            (ArgInt rc :: site_args _mtx cs) ;;
    abort.

Definition PTHREAD_MUTEX_init (_mtx _attr : ptr) (cs : call_site) : M unit :=
  rc <- call (pthread_mutex_init _mtx _attr) ;;
  if rc =? 0 then
    LogFullDebug COMPONENT_RW_LOCK "Init mutex %p (%s) at %s:%d"
                 (site_args _mtx cs)
  else
    LogCrit COMPONENT_RW_LOCK "Error %d, Init mutex %p (%s) at %s:%d"
            (ArgInt rc :: site_args _mtx cs) ;;
    abort.

Definition PTHREAD_MUTEX_destroy (_mtx : ptr) (cs : call_site) : M unit :=
  rc <- call (pthread_mutex_destroy _mtx) ;;
  if rc =? 0 then
    LogFullDebug COMPONENT_RW_LOCK "Destroy mutex %p (%s) at %s:%d"
                 (site_args _mtx cs)
  else
    LogCrit COMPONENT_RW_LOCK "Error %d, Destroy mutex %p (%s) at %s:%d"
            (ArgInt rc :: site_args _mtx cs) ;;
    abort.

Definition PTHREAD_COND_init (_cond _attr : ptr) (cs : call_site) : M unit :=
  rc <- call (pthread_cond_init _cond _attr) ;;
  if rc =? 0 then
    LogFullDebug COMPONENT_RW_LOCK "Init cond %p (%s) at %s:%d"
                 (site_args _cond cs)
  else
    LogCrit COMPONENT_RW_LOCK "Error %d, Init cond %p (%s) at %s:%d"
            (ArgInt rc :: site_args _cond cs) ;;
    abort.

Definition PTHREAD_COND_destroy (_cond : ptr) (cs : call_site) : M unit :=
  rc <- call (pthread_cond_destroy _cond) ;;
  if rc =? 0 then
    LogFullDebug COMPONENT_RW_LOCK "Destroy cond %p (%s) at %s:%d"
                 (site_args _cond cs)
  else
    LogCrit COMPONENT_RW_LOCK "Error %d, Destroy cond %p (%s) at %s:%d"
            (ArgInt rc :: site_args _cond cs) ;;
    abort.

(** The eleven wrappers under one name, for statements that range over
    all of them. *)
Inductive sync_op : Type :=
| RWLOCK_init (_lock _attr : ptr)
| RWLOCK_destroy (_lock : ptr)
| RWLOCK_wrlock (_lock : ptr)
| RWLOCK_rdlock (_lock : ptr)
| RWLOCK_unlock (_lock : ptr)
| MUTEX_lock (_mtx : ptr)
| MUTEX_unlock (_mtx : ptr)
| MUTEX_init (_mtx _attr : ptr)
| MUTEX_destroy (_mtx : ptr)
| COND_init (_cond _attr : ptr)
| COND_destroy (_cond : ptr).

Definition run_sync (op : sync_op) : call_site -> M unit :=
  match op with
  | RWLOCK_init l a => PTHREAD_RWLOCK_init l a
  | RWLOCK_destroy l => PTHREAD_RWLOCK_destroy l
  | RWLOCK_wrlock l => PTHREAD_RWLOCK_wrlock l
  | RWLOCK_rdlock l => PTHREAD_RWLOCK_rdlock l
  | RWLOCK_unlock l => PTHREAD_RWLOCK_unlock l
  | MUTEX_lock m => PTHREAD_MUTEX_lock m
  | MUTEX_unlock m => PTHREAD_MUTEX_unlock m
  | MUTEX_init m a => PTHREAD_MUTEX_init m a
  | MUTEX_destroy m => PTHREAD_MUTEX_destroy m
  | COND_init c a => PTHREAD_COND_init c a
  | COND_destroy c => PTHREAD_COND_destroy c
  end.

(** The primitive a wrapper calls. *)
Definition primitive (op : sync_op) : world -> Z * world :=
  match op with
  | RWLOCK_init l a => pthread_rwlock_init l a
  | RWLOCK_destroy l => pthread_rwlock_destroy l
  | RWLOCK_wrlock l => pthread_rwlock_wrlock l
  | RWLOCK_rdlock l => pthread_rwlock_rdlock l
  | RWLOCK_unlock l => pthread_rwlock_unlock l
  | MUTEX_lock m => pthread_mutex_lock m
  | MUTEX_unlock m => pthread_mutex_unlock m
  | MUTEX_init m a => pthread_mutex_init m a
  | MUTEX_destroy m => pthread_mutex_destroy m
  | COND_init c a => pthread_cond_init c a
  | COND_destroy c => pthread_cond_destroy c
  end.

(** The object (lock, mutex, condition variable) a wrapper is used on. *)
Definition sync_object (op : sync_op) : ptr :=
  match op with
  | RWLOCK_init l _ | RWLOCK_destroy l | RWLOCK_wrlock l | RWLOCK_rdlock l
  | RWLOCK_unlock l => l
  | MUTEX_lock m | MUTEX_unlock m | MUTEX_init m _ | MUTEX_destroy m => m
  | COND_init c _ | COND_destroy c => c
  end.

(** [now]: the content of [*ts] after the call is returned.  [NDEBUG] is
    the build's setting for <assert.h>. *)
Definition now (NDEBUG : bool) (ts : timespec) : M timespec :=
  r <- call (clock_gettime CLOCK_REALTIME ts) ;;
  let (rc, ts') := (r : Z * timespec) in
  (if negb (rc =? 0) then
     LogCrit COMPONENT_MAIN "Failed to get timestamp" [] ;;
     assert NDEBUG false
   else ret tt) ;;
  ret ts'.

End InstrumentedSync.

(** ** Bounded string helpers *)

(** A [char] buffer is the list of its bytes; a C string lives in a buffer
    and ends at the first NUL.  What the C standard leaves undefined (a read
    or a write outside the buffer) is [Undefined]. *)
Inductive cres (A : Type) : Type :=
| Done (a : A)
| Undefined.
Arguments Done {A} a.
Arguments Undefined {A}.

Definition NUL : byte := x00.

(** [strlen]: the number of bytes before the first NUL; no NUL inside the
    buffer means reading past its end. *)
Fixpoint strlen (s : list byte) : option Z :=
  match s with
  | [] => None
  | c :: s' =>
      if Byte.eqb c NUL then Some 0
      else match strlen s' with
           | Some n => Some (n + 1)
           | None => None
           end
  end.

(** [memcpy (dest + off, src, n)]: the buffer [dest] after the copy, when
    the [n] bytes read and the [n] bytes written are inside the buffers. *)
Definition memcpy (dest : list byte) (off : Z) (src : list byte) (n : Z)
  : option (list byte) :=
  if (0 <=? off) && (off + n <=? Z.of_nat (List.length dest))
     && (n <=? Z.of_nat (List.length src))
  then Some (firstn (Z.to_nat off) dest ++ firstn (Z.to_nat n) src
             ++ skipn (Z.to_nat (off + n)) dest)
  else None.

(** [strmaxcpy]: the [int] result and the buffer [dest] afterwards.
    [len] is an [int]; the comparison with [dest_size] and the third
    argument of [memcpy] convert it to [size_t]. *)
Definition strmaxcpy (dest src : list byte) (dest_size : Z)
  : cres (Z * list byte) :=
  match strlen src with
  | None => Undefined
  | Some n =>
      let len := s32 n in
      if u64 len >=? dest_size then Done (-1, dest)
      else
        match memcpy dest 0 src (u64 (s32 (len + 1))) with
        | Some dest' => Done (0, dest')
        | None => Undefined
        end
  end.

(** [strmaxcat]: [destlen], [remain] and [srclen] are [int]s; the
    subtraction [dest_size - destlen] is done in [size_t]. *)
Definition strmaxcat (dest src : list byte) (dest_size : Z)
  : cres (Z * list byte) :=
  match strlen dest with
  | None => Undefined
  | Some nd =>
      let destlen := s32 nd in
      let remain := s32 (u64 (dest_size - u64 destlen)) in
      match strlen src with
      | None => Undefined
      | Some ns =>
          let srclen := s32 ns in
          if remain <=? srclen then Done (-1, dest)
          else
            match memcpy dest destlen src (u64 (s32 (srclen + 1))) with
            | Some dest' => Done (0, dest')
            | None => Undefined
            end
      end
  end.

(** The bytes of a string literal, without terminator. *)
Definition bytes_of (s : string) : list byte := list_byte_of_string s.

(** The text a buffer holds: its bytes up to the first NUL. *)
Fixpoint c_str (s : list byte) : list byte :=
  match s with
  | [] => []
  | c :: s' => if Byte.eqb c NUL then [] else c :: c_str s'
  end.

(** A source string of 2^32 + 1 bytes and its terminator. *)
Definition long_src : list byte :=
  repeat x61 (Z.to_nat 4294967297) ++ [NUL].

(** A source string of 2^31 bytes and its terminator. *)
Definition two_gib_src : list byte :=
  repeat x61 (Z.to_nat 2147483648) ++ [NUL].

(** ** A platform to run the wrappers on *)

(** The state counts the calls made so far.  A pthread primitive fails with
    [EINVAL] (22) on the null pointer and succeeds on every other; the clock
    answers the first three calls and fails from then on. *)
Definition EINVAL : Z := 22.

Definition counting_prim (obj : ptr) (w : nat) : Z * nat :=
  (if obj =? 0 then EINVAL else 0, S w).

#[local] Instance counting_platform : Platform := {|
  world := nat;
  pthread_rwlock_init := fun l _ => counting_prim l;
  pthread_rwlock_destroy := counting_prim;
  pthread_rwlock_wrlock := counting_prim;
  pthread_rwlock_rdlock := counting_prim;
  pthread_rwlock_unlock := counting_prim;
  pthread_mutex_lock := counting_prim;
  pthread_mutex_unlock := counting_prim;
  pthread_mutex_init := fun m _ => counting_prim m;
  pthread_mutex_destroy := counting_prim;
  pthread_cond_init := fun c _ => counting_prim c;
  pthread_cond_destroy := counting_prim;
  clock_gettime := fun _ ts w =>
    if (w <? 3)%nat
    then ((0, {| tv_sec := 1700000000 + Z.of_nat w; tv_nsec := 0 |}), S w)
    else ((-1, ts), S w)
|}.

Definition here : call_site :=
  {| site_expr := "&entry->lock"; site_file := "cache.c"; site_line := 120 |}.

(** The state of a process on that platform after [w] calls, with log [l]. *)
Definition at_call (w : nat) (l : list log_call) : @state counting_platform :=
  {| st_world := w; st_log := l |}.

(** * Properties *)

(** ** Fixed-width conversions *)

Lemma u64_small (z : Z) : in_u64 z -> u64 z = z.
Proof. unfold in_u64, u64. intros H. now apply Z.mod_small. Qed.

Lemma s64_small (z : Z) : in_s64 z -> s64 z = z.
Proof.
  unfold in_s64, s64, two63, two64. intros H.
  rewrite Z.mod_small; lia.
Qed.

Lemma s32_small (z : Z) : in_s32 z -> s32 z = z.
Proof.
  unfold in_s32, s32, two31, two32. intros H.
  rewrite Z.mod_small; lia.
Qed.

Lemma u64_range (z : Z) : in_u64 (u64 z).
Proof. unfold in_u64, u64, two64. apply Z.mod_pos_bound. lia. Qed.

Lemma u64_s64 (z : Z) : u64 (s64 z) = u64 z.
Proof.
  unfold u64, s64.
  replace ((z + two63) mod two64 - two63)
    with ((z + two63) mod two64 + (-1) * two64 + two63)
    by (unfold two63, two64; lia).
  rewrite <- Z.add_assoc, Z.add_mod_idemp_l by (unfold two64; lia).
  replace (z + two63 + (-1 * two64 + two63)) with z
    by (unfold two63, two64; lia).
  reflexivity.
Qed.

Lemma u64_idem (z : Z) : u64 (u64 z) = u64 z.
Proof. unfold u64, two64. apply Z.mod_mod. lia. Qed.

Lemma u64_add (a b : Z) : u64 (u64 a + u64 b) = u64 (a + b).
Proof. unfold u64, two64. symmetry. apply Z.add_mod. lia. Qed.

Lemma u64_mul_l (a b : Z) : u64 (u64 a * b) = u64 (a * b).
Proof. unfold u64, two64. apply Z.mul_mod_idemp_l. lia. Qed.

(** The sum of products every conversion in this header computes, as one
    reduction modulo 2^64. *)
Lemma u64_flat (s ns : Z) :
  u64 (u64 (u64 (s64 s) * NS_PER_SEC) + u64 (s64 ns))
  = u64 (s * NS_PER_SEC + ns).
Proof. now rewrite !u64_s64, u64_mul_l, u64_add. Qed.

Lemma div_NS (s ns : Z) :
  0 <= ns < NS_PER_SEC -> (s * NS_PER_SEC + ns) / NS_PER_SEC = s.
Proof.
  intros H. rewrite Z.add_comm, Z.div_add by (unfold NS_PER_SEC; lia).
  rewrite Z.div_small by exact H. reflexivity.
Qed.

Lemma mod_NS (s ns : Z) :
  0 <= ns < NS_PER_SEC -> (s * NS_PER_SEC + ns) mod NS_PER_SEC = ns.
Proof.
  intros H. rewrite Z.add_comm, Z.mod_add by (unfold NS_PER_SEC; lia).
  now apply Z.mod_small.
Qed.

Lemma mod_NS_range (n : Z) : 0 <= n mod NS_PER_SEC < NS_PER_SEC.
Proof. apply Z.mod_pos_bound. unfold NS_PER_SEC. lia. Qed.

Lemma div_NS_range (n : Z) :
  in_u64 n -> 0 <= n / NS_PER_SEC <= 18446744073.
Proof.
  unfold in_u64, two64, NS_PER_SEC. intros H. split.
  - apply Z.div_pos; lia.
  - apply Z.lt_succ_r. apply Z.div_lt_upper_bound; lia.
Qed.

Lemma timespec_eq (a b : timespec) :
  tv_sec a = tv_sec b -> tv_nsec a = tv_nsec b -> a = b.
Proof. destruct a, b; simpl; intros; subst; reflexivity. Qed.

(** ** Conversions between timespec and elapsed nanoseconds *)

(** Inside the range of the counter [timespec_to_nsecs] is the exact
    flattened value. *)
Lemma timespec_to_nsecs_flat (w : timespec) :
  in_u64 (flat w) -> timespec_to_nsecs w = flat w.
Proof.
  intros H. unfold timespec_to_nsecs.
  rewrite u64_mul_l, u64_add. now apply u64_small.
Qed.

Lemma nsecs_to_timespec_fields (n : Z) :
  in_u64 n ->
  tv_sec (nsecs_to_timespec n) = n / NS_PER_SEC
  /\ tv_nsec (nsecs_to_timespec n) = n mod NS_PER_SEC.
Proof.
  intros H. unfold nsecs_to_timespec; simpl.
  pose proof (div_NS_range n H). pose proof (mod_NS_range n).
  split; apply s64_small; unfold in_s64, two63, NS_PER_SEC in *; lia.
Qed.

(** C4. Round trip: for a normalized timespec [w] inside the range of the
    64-bit nanosecond counter (its flattened value is between 0 and
    2^64 - 1), [timespec_to_nsecs] yields that flattened value and
    [nsecs_to_timespec] applied to it gives [w] back. *)
Theorem nsecs_to_timespec_to_nsecs (w : timespec) :
  normalized w -> 0 <= tv_sec w -> flat w < two64 ->
  timespec_to_nsecs w = flat w
  /\ nsecs_to_timespec (timespec_to_nsecs w) = w.
Proof.
  intros Hn Hs Hr.
  assert (Hin : in_u64 (flat w)).
  { unfold in_u64, flat, normalized, NS_PER_SEC in *. lia. }
  rewrite (timespec_to_nsecs_flat w Hin). split; [reflexivity|].
  destruct (nsecs_to_timespec_fields (flat w) Hin) as [Es En].
  apply timespec_eq.
  - rewrite Es. unfold flat. now apply div_NS.
  - rewrite En. unfold flat. now apply mod_NS.
Qed.

Lemma nsecs_to_timespec_to_nsecs_witness :
  nsecs_to_timespec
    (timespec_to_nsecs {| tv_sec := 1700000000; tv_nsec := 999999999 |})
  = {| tv_sec := 1700000000; tv_nsec := 999999999 |}.
Proof.
  apply (nsecs_to_timespec_to_nsecs
           {| tv_sec := 1700000000; tv_nsec := 999999999 |}).
  - unfold normalized, NS_PER_SEC; simpl; lia.
  - simpl; lia.
  - unfold flat, two64, NS_PER_SEC; simpl; lia.
Defined.

(** C10. Reverse round trip: for every elapsed count [n] of the 64-bit
    counter, [nsecs_to_timespec n] is normalized (nanoseconds in
    [0, 10^9)) and [timespec_to_nsecs] gives [n] back. *)
Theorem timespec_to_nsecs_to_timespec (n : nsecs_elapsed_t) :
  in_u64 n ->
  normalized (nsecs_to_timespec n)
  /\ timespec_to_nsecs (nsecs_to_timespec n) = n.
Proof.
  intros H.
  destruct (nsecs_to_timespec_fields n H) as [Es En].
  pose proof (mod_NS_range n) as Hm.
  assert (Hf : flat (nsecs_to_timespec n) = n).
  { unfold flat. rewrite Es, En.
    pose proof (Z.div_mod n NS_PER_SEC) as D. unfold NS_PER_SEC in *. lia. }
  split.
  - unfold normalized. now rewrite En.
  - rewrite timespec_to_nsecs_flat; rewrite Hf; auto.
Qed.

Lemma timespec_to_nsecs_to_timespec_witness :
  normalized (nsecs_to_timespec 18446744073709551615)
  /\ timespec_to_nsecs (nsecs_to_timespec 18446744073709551615)
     = 18446744073709551615.
Proof.
  apply (timespec_to_nsecs_to_timespec 18446744073709551615).
  unfold in_u64, two64. lia.
Defined.

(** ** Difference *)

Lemma timespec_diff_mod (start end_ : timespec) :
  timespec_diff start end_
  = if not_earlier start end_ then u64 (flat end_ - flat start)
    else u64 (flat start - flat end_).
Proof.
  unfold timespec_diff, not_earlier, flat.
  destruct (_ || _); rewrite u64_flat; f_equal; lia.
Qed.

Lemma not_earlier_total (a b : timespec) :
  not_earlier a b = false -> not_earlier b a = true.
Proof. unfold not_earlier. lia. Qed.

Lemma not_earlier_both (a b : timespec) :
  not_earlier a b = true -> not_earlier b a = true -> flat a = flat b.
Proof. unfold not_earlier, flat. intros H1 H2. f_equal; lia. Qed.

Lemma not_earlier_flat (a b : timespec) :
  normalized a -> normalized b ->
  not_earlier a b = true -> flat a <= flat b.
Proof. unfold normalized, not_earlier, flat, NS_PER_SEC. lia. Qed.

Lemma timespec_diff_sym (a b : timespec) :
  timespec_diff a b = timespec_diff b a.
Proof.
  rewrite !timespec_diff_mod.
  destruct (not_earlier a b) eqn:Hab, (not_earlier b a) eqn:Hba;
    try reflexivity.
  - now rewrite (not_earlier_both a b Hab Hba).
  - apply not_earlier_total in Hab. congruence.
Qed.

Lemma timespec_diff_abs (a b : timespec) :
  normalized a -> normalized b ->
  Z.abs (flat a - flat b) < two64 ->
  timespec_diff a b = Z.abs (flat a - flat b).
Proof.
  intros Ha Hb Hr. rewrite timespec_diff_mod.
  destruct (not_earlier a b) eqn:Hab.
  - pose proof (not_earlier_flat a b Ha Hb Hab).
    replace (Z.abs (flat a - flat b)) with (flat b - flat a) in * by lia.
    apply u64_small. unfold in_u64. lia.
  - pose proof (not_earlier_flat b a Hb Ha (not_earlier_total a b Hab)).
    replace (Z.abs (flat a - flat b)) with (flat a - flat b) in * by lia.
    apply u64_small. unfold in_u64. lia.
Qed.

(** C5, as stated, fails: two normalized timespecs with non-negative
    seconds, 2^35 seconds apart, whose distance [timespec_diff] does not
    return -- neither the exact distance of the flattened values nor the
    distance of what [timespec_to_nsecs] makes of them. *)
Lemma timespec_diff_abs_counterexample :
  let a := {| tv_sec := 52359738368; tv_nsec := 0 |} in
  let b := {| tv_sec := 18000000000; tv_nsec := 0 |} in
  normalized a /\ normalized b
  /\ timespec_diff a b <> Z.abs (flat a - flat b)
  /\ timespec_diff a b
     <> Z.abs (timespec_to_nsecs a - timespec_to_nsecs b).
Proof.
  cbv zeta. unfold normalized, NS_PER_SEC; simpl.
  repeat split; try lia; vm_compute; discriminate.
Qed.

(** C5, amended. [timespec_diff a b = timespec_diff b a] for all [a], [b];
    for normalized [a] and [b] whose exact distance is below 2^64 (the range
    of the counter) [timespec_diff] is that distance,
    |flat a - flat b|, whichever is earlier; and the difference of
    {5 s, 0 ns} and {3 s, 0 ns} is 2_000_000_000. *)
Theorem timespec_diff_abs_in_range :
  (forall a b, timespec_diff a b = timespec_diff b a)
  /\ (forall a b,
         normalized a -> normalized b ->
         Z.abs (flat a - flat b) < two64 ->
         timespec_diff a b = Z.abs (flat a - flat b)
         /\ timespec_diff b a = Z.abs (flat a - flat b))
  /\ timespec_diff {| tv_sec := 5; tv_nsec := 0 |}
                   {| tv_sec := 3; tv_nsec := 0 |} = 2000000000.
Proof.
  split; [exact timespec_diff_sym|]. split; [|reflexivity].
  intros a b Ha Hb Hr. split.
  - now apply timespec_diff_abs.
  - rewrite timespec_diff_sym. now apply timespec_diff_abs.
Qed.

Lemma timespec_diff_abs_in_range_witness :
  timespec_diff {| tv_sec := -1; tv_nsec := 999999999 |}
                {| tv_sec := 7; tv_nsec := 1 |} = 7000000002
  /\ timespec_diff {| tv_sec := 7; tv_nsec := 1 |}
                   {| tv_sec := -1; tv_nsec := 999999999 |} = 7000000002.
Proof.
  apply (proj1 (proj2 timespec_diff_abs_in_range)
           {| tv_sec := -1; tv_nsec := 999999999 |}
           {| tv_sec := 7; tv_nsec := 1 |}).
  - unfold normalized, NS_PER_SEC; simpl; lia.
  - unfold normalized, NS_PER_SEC; simpl; lia.
  - unfold flat, two64, NS_PER_SEC; simpl; lia.
Defined.

(** ** Comparison *)

Lemma gsh_time_cmp_lt (a b : timespec) :
  gsh_time_cmp a b = -1
  <-> tv_sec a < tv_sec b \/ (tv_sec a = tv_sec b /\ tv_nsec a < tv_nsec b).
Proof.
  unfold gsh_time_cmp.
  destruct (tv_sec a <? tv_sec b) eqn:E1; [lia|].
  destruct (tv_sec a >? tv_sec b) eqn:E2; [lia|].
  destruct (tv_nsec a <? tv_nsec b) eqn:E3; [lia|].
  destruct (tv_nsec a >? tv_nsec b) eqn:E4; lia.
Qed.

Lemma gsh_time_cmp_gt (a b : timespec) :
  gsh_time_cmp a b = 1
  <-> tv_sec b < tv_sec a \/ (tv_sec a = tv_sec b /\ tv_nsec b < tv_nsec a).
Proof.
  unfold gsh_time_cmp.
  destruct (tv_sec a <? tv_sec b) eqn:E1; [lia|].
  destruct (tv_sec a >? tv_sec b) eqn:E2; [lia|].
  destruct (tv_nsec a <? tv_nsec b) eqn:E3; [lia|].
  destruct (tv_nsec a >? tv_nsec b) eqn:E4; lia.
Qed.

Lemma gsh_time_cmp_eq (a b : timespec) :
  gsh_time_cmp a b = 0 <-> tv_sec a = tv_sec b /\ tv_nsec a = tv_nsec b.
Proof.
  unfold gsh_time_cmp.
  destruct (tv_sec a <? tv_sec b) eqn:E1; [lia|].
  destruct (tv_sec a >? tv_sec b) eqn:E2; [lia|].
  destruct (tv_nsec a <? tv_nsec b) eqn:E3; [lia|].
  destruct (tv_nsec a >? tv_nsec b) eqn:E4; lia.
Qed.

Lemma gsh_time_cmp_cases (a b : timespec) :
  gsh_time_cmp a b = -1 \/ gsh_time_cmp a b = 0 \/ gsh_time_cmp a b = 1.
Proof.
  unfold gsh_time_cmp.
  repeat match goal with |- context [if ?c then _ else _] => destruct c end;
    auto.
Qed.

(** C6. [gsh_time_cmp] is a strict total order on timespecs, seconds
    first, then nanoseconds: its result is -1, 0 or 1; it is -1 exactly when
    the first argument is lexicographically smaller; "less" is transitive;
    [a] is less than [b] exactly when [b] is greater than [a]; and the
    result is 0 exactly when both fields are equal, so comparing a time with
    itself gives 0. *)
Theorem gsh_time_cmp_total_order (a b c : timespec) :
  (gsh_time_cmp a b = -1 \/ gsh_time_cmp a b = 0 \/ gsh_time_cmp a b = 1)
  /\ (gsh_time_cmp a b = -1
      <-> tv_sec a < tv_sec b
          \/ (tv_sec a = tv_sec b /\ tv_nsec a < tv_nsec b))
  /\ (gsh_time_cmp a b = -1 -> gsh_time_cmp b c = -1 ->
      gsh_time_cmp a c = -1)
  /\ (gsh_time_cmp a b = -1 <-> gsh_time_cmp b a = 1)
  /\ (gsh_time_cmp a b = 0 <-> a = b)
  /\ gsh_time_cmp a a = 0.
Proof.
  split; [apply gsh_time_cmp_cases|].
  split; [apply gsh_time_cmp_lt|].
  split; [|split; [|split]].
  - rewrite !gsh_time_cmp_lt. lia.
  - rewrite gsh_time_cmp_lt, gsh_time_cmp_gt. lia.
  - rewrite gsh_time_cmp_eq. split.
    + intros [H1 H2]. now apply timespec_eq.
    + intros ->. split; reflexivity.
  - apply gsh_time_cmp_eq. split; reflexivity.
Qed.

Lemma gsh_time_cmp_total_order_witness :
  gsh_time_cmp {| tv_sec := 1; tv_nsec := 5 |}
               {| tv_sec := 2; tv_nsec := 0 |} = -1.
Proof.
  apply (proj1 (proj2 (proj2
           (gsh_time_cmp_total_order
              {| tv_sec := 1; tv_nsec := 5 |}
              {| tv_sec := 1; tv_nsec := 7 |}
              {| tv_sec := 2; tv_nsec := 0 |}))));
    reflexivity.
Defined.

(** ** Adding and subtracting an interval *)

Lemma s64_u64 (z : Z) : s64 (u64 z) = s64 z.
Proof.
  unfold s64, u64.
  rewrite Z.add_mod_idemp_l by (unfold two64; lia). reflexivity.
Qed.

Lemma u64_add_l (a b : Z) : u64 (u64 a + b) = u64 (a + b).
Proof. unfold u64, two64. apply Z.add_mod_idemp_l. lia. Qed.

(** The fields [timespec_add_nsecs] leaves, as long as the seconds stay
    inside [time_t]: the carry is taken when the nanosecond sum is strictly
    above 10^9. *)
Lemma timespec_add_nsecs_fields (n : nsecs_elapsed_t) (w : timespec) :
  normalized w -> in_u64 n ->
  - two63 <= tv_sec w -> tv_sec w + n / NS_PER_SEC + 1 < two63 ->
  let sum := tv_nsec w + n mod NS_PER_SEC in
  let carry := if sum >? NS_PER_SEC then 1 else 0 in
  tv_sec (timespec_add_nsecs n w) = tv_sec w + n / NS_PER_SEC + carry
  /\ tv_nsec (timespec_add_nsecs n w) = sum - carry * NS_PER_SEC.
Proof.
  intros Hn Hu Hlo Hhi sum carry.
  pose proof (div_NS_range n Hu) as Hq. pose proof (mod_NS_range n) as Hr.
  unfold normalized in Hn.
  assert (E1 : s64 (u64 (u64 (tv_sec w) + n / NS_PER_SEC))
               = tv_sec w + n / NS_PER_SEC).
  { rewrite u64_add_l, s64_u64. apply s64_small.
    unfold in_s64. lia. }
  assert (E2 : s64 (u64 (u64 (tv_nsec w) + n mod NS_PER_SEC)) = sum).
  { rewrite u64_add_l, s64_u64. apply s64_small.
    unfold in_s64, two63, NS_PER_SEC in *. subst sum. lia. }
  assert (E3 : u64 sum = sum).
  { apply u64_small. unfold in_u64, two64, NS_PER_SEC in *. subst sum. lia. }
  unfold timespec_add_nsecs. rewrite E1, E2, E3.
  subst carry. destruct (sum >? NS_PER_SEC) eqn:C; cbn [tv_sec tv_nsec].
  - assert (D : sum / NS_PER_SEC = 1 /\ sum mod NS_PER_SEC = sum - NS_PER_SEC).
    { unfold NS_PER_SEC in *. subst sum.
      split; Z.div_mod_to_equations; lia. }
    destruct D as [D1 D2]. rewrite D1, D2. split.
    + rewrite u64_add_l, s64_u64. apply s64_small. unfold in_s64. lia.
    + replace (sum - 1 * NS_PER_SEC) with (sum - NS_PER_SEC) by lia.
      apply s64_small.
      unfold in_s64, two63, NS_PER_SEC in *. subst sum. lia.
  - split; lia.
Qed.

(** X30. For a normalized timespec [w] and an interval [n] inside the range
    of the counter (non-negative seconds, [flat w + n] below 2^64), the
    timespec [timespec_add_nsecs] produces has the flattened value
    [flat w + n] -- exactly, and as [timespec_to_nsecs] computes it,
    whether or not a second was carried; and 600_000_000 ns added to
    {10 s, 500_000_000 ns} gives {11 s, 100_000_000 ns}. *)
Theorem timespec_add_nsecs_flat :
  (forall (n : nsecs_elapsed_t) (w : timespec),
      normalized w -> 0 <= tv_sec w -> in_u64 n -> flat w + n < two64 ->
      flat (timespec_add_nsecs n w) = flat w + n
      /\ timespec_to_nsecs (timespec_add_nsecs n w)
         = timespec_to_nsecs w + n)
  /\ timespec_add_nsecs 600000000 {| tv_sec := 10; tv_nsec := 500000000 |}
     = {| tv_sec := 11; tv_nsec := 100000000 |}.
Proof.
  split; [|reflexivity].
  intros n w Hn Hs Hu Hr.
  pose proof (div_NS_range n Hu) as Hq.
  assert (Hw : in_u64 (flat w)).
  { unfold in_u64, flat, normalized, NS_PER_SEC in *. lia. }
  assert (Hsec : tv_sec w < 18446744074).
  { unfold in_u64, flat, normalized, two64, NS_PER_SEC in *. lia. }
  destruct (timespec_add_nsecs_fields n w Hn Hu
              ltac:(unfold two63; lia) ltac:(unfold two63; lia)) as [Es En].
  assert (Hf : flat (timespec_add_nsecs n w) = flat w + n).
  { unfold flat at 1. rewrite Es, En. unfold flat.
    pose proof (Z.div_mod n NS_PER_SEC) as D. unfold NS_PER_SEC in *.
    destruct (_ >? _); lia. }
  split; [exact Hf|].
  rewrite (timespec_to_nsecs_flat w Hw).
  rewrite timespec_to_nsecs_flat; rewrite Hf; auto.
  unfold in_u64 in *. lia.
Qed.

Lemma timespec_add_nsecs_flat_witness :
  flat (timespec_add_nsecs 2999999999
          {| tv_sec := 1700000000; tv_nsec := 1 |})
  = flat {| tv_sec := 1700000000; tv_nsec := 1 |} + 2999999999
  /\ timespec_to_nsecs (timespec_add_nsecs 2999999999
                          {| tv_sec := 1700000000; tv_nsec := 1 |})
     = timespec_to_nsecs {| tv_sec := 1700000000; tv_nsec := 1 |}
       + 2999999999.
Proof.
  apply (proj1 timespec_add_nsecs_flat 2999999999
           {| tv_sec := 1700000000; tv_nsec := 1 |}).
  - unfold normalized, NS_PER_SEC; simpl; lia.
  - simpl; lia.
  - unfold in_u64, two64; lia.
  - unfold flat, two64, NS_PER_SEC; simpl; lia.
Defined.

(** C7, at an input where it fails: 2_999_999_999 ns added to
    {1_700_000_000 s, 1 ns}.  The nanoseconds, 1 + 999_999_999, make a full
    second, which has to be carried: {1_700_000_003 s, 0 ns}.  The test
    [tv_nsec > NS_PER_SEC] is false at exactly 10^9 and the second stays in
    the nanoseconds, {1_700_000_002 s, 1_000_000_000 ns}; the flattened
    value is the sum all the same. *)
Theorem timespec_add_nsecs_carry_missed :
  let w := {| tv_sec := 1700000000; tv_nsec := 1 |} in
  let n := 2999999999 in
  normalizedb w = true
  /\ flat w + n < two64
  /\ tv_nsec w + n mod NS_PER_SEC = NS_PER_SEC
  /\ timespec_add_nsecs n w
     = {| tv_sec := 1700000002; tv_nsec := 1000000000 |}
  /\ timespec_add_nsecs n w <> {| tv_sec := 1700000003; tv_nsec := 0 |}
  /\ flat (timespec_add_nsecs n w) = flat w + n.
Proof. cbv zeta. repeat split. vm_compute. discriminate. Qed.

(** X25. After [timespec_add_nsecs] the nanoseconds are at most 10^9, and
    they are 10^9 exactly when the nanosecond sum is: the sum that the test
    [tv_nsec > NS_PER_SEC] lets through. *)
Lemma timespec_add_nsecs_nsec_bound (n : nsecs_elapsed_t) (w : timespec) :
  normalized w -> in_u64 n ->
  - two63 <= tv_sec w -> tv_sec w + n / NS_PER_SEC + 1 < two63 ->
  0 <= tv_nsec (timespec_add_nsecs n w) <= NS_PER_SEC
  /\ (tv_nsec (timespec_add_nsecs n w) = NS_PER_SEC
      <-> tv_nsec w + n mod NS_PER_SEC = NS_PER_SEC).
Proof.
  intros Hn Hu Hlo Hhi.
  destruct (timespec_add_nsecs_fields n w Hn Hu Hlo Hhi) as [_ En].
  rewrite En. pose proof (mod_NS_range n) as Hr.
  unfold normalized, NS_PER_SEC in *.
  destruct (_ >? _) eqn:C; lia.
Qed.

(** C2, at the input where it fails: 500_000_000 ns added to
    {10 s, 500_000_000 ns}.  The nanosecond sum is exactly 10^9, the test
    [tv_nsec > NS_PER_SEC] is false, and the result keeps 10^9 nanoseconds:
    it is not normalized. *)
Theorem timespec_add_nsecs_exact_second :
  let w := {| tv_sec := 10; tv_nsec := 500000000 |} in
  normalizedb w = true
  /\ timespec_add_nsecs 500000000 w
     = {| tv_sec := 10; tv_nsec := 1000000000 |}
  /\ normalizedb (timespec_add_nsecs 500000000 w) = false.
Proof. cbv zeta. repeat split. Qed.

(** The fields [timespec_sub_nsecs] leaves, as long as the seconds stay
    inside [time_t]. *)
Lemma timespec_sub_nsecs_fields (n : nsecs_elapsed_t) (w : timespec) :
  normalized w -> in_u64 n ->
  tv_sec w < two63 -> - two63 <= tv_sec w - n / NS_PER_SEC - 1 ->
  timespec_sub_nsecs n w
  = if n mod NS_PER_SEC >? tv_nsec w then
      {| tv_sec := tv_sec w - (n / NS_PER_SEC + 1);
         tv_nsec := n mod NS_PER_SEC - tv_nsec w |}
    else
      {| tv_sec := tv_sec w - n / NS_PER_SEC;
         tv_nsec := tv_nsec w - n mod NS_PER_SEC |}.
Proof.
  intros Hn Hu Hhi Hlo.
  pose proof (div_NS_range n Hu) as Hq. pose proof (mod_NS_range n) as Hr.
  destruct (nsecs_to_timespec_fields n Hu) as [Es En].
  unfold normalized in Hn.
  unfold timespec_sub_nsecs. rewrite Es, En.
  destruct (_ >? _) eqn:C; apply timespec_eq; simpl.
  - rewrite (s64_small (n / NS_PER_SEC + 1))
      by (unfold in_s64, two63; lia).
    apply s64_small. unfold in_s64. lia.
  - apply s64_small. unfold in_s64, two63, NS_PER_SEC in *. lia.
  - apply s64_small. unfold in_s64. lia.
  - apply s64_small. unfold in_s64, two63, NS_PER_SEC in *. lia.
Qed.

(** X26. Without a borrow [timespec_sub_nsecs] subtracts the interval. *)
Lemma timespec_sub_nsecs_no_borrow (n : nsecs_elapsed_t) (w : timespec) :
  normalized w -> in_u64 n ->
  tv_sec w < two63 -> - two63 <= tv_sec w - n / NS_PER_SEC - 1 ->
  n mod NS_PER_SEC <= tv_nsec w ->
  flat (timespec_sub_nsecs n w) = flat w - n.
Proof.
  intros Hn Hu Hhi Hlo Hb.
  rewrite (timespec_sub_nsecs_fields n w Hn Hu Hhi Hlo).
  destruct (_ >? _) eqn:C; [lia|]. unfold flat; cbn [tv_sec tv_nsec].
  pose proof (Z.div_mod n NS_PER_SEC) as D. unfold NS_PER_SEC in *. lia.
Qed.

(** X27. With a borrow the nanoseconds become [n mod 10^9 - tv_nsec w],
    where the difference is [tv_nsec w + 10^9 - n mod 10^9]: the flattened
    value is off by [2 * (n mod 10^9 - tv_nsec w) - 10^9]. *)
Lemma timespec_sub_nsecs_borrow (n : nsecs_elapsed_t) (w : timespec) :
  normalized w -> in_u64 n ->
  tv_sec w < two63 -> - two63 <= tv_sec w - n / NS_PER_SEC - 1 ->
  tv_nsec w < n mod NS_PER_SEC ->
  flat (timespec_sub_nsecs n w)
  = flat w - n + (2 * (n mod NS_PER_SEC - tv_nsec w) - NS_PER_SEC).
Proof.
  intros Hn Hu Hhi Hlo Hb.
  rewrite (timespec_sub_nsecs_fields n w Hn Hu Hhi Hlo).
  destruct (_ >? _) eqn:C; [|lia]. unfold flat; cbn [tv_sec tv_nsec].
  pose proof (Z.div_mod n NS_PER_SEC) as D. unfold NS_PER_SEC in *. lia.
Qed.

(** X28. [timespec_sub_nsecs] keeps the nanoseconds inside [0, 10^9). *)
Lemma timespec_sub_nsecs_normalized (n : nsecs_elapsed_t) (w : timespec) :
  normalized w -> in_u64 n ->
  tv_sec w < two63 -> - two63 <= tv_sec w - n / NS_PER_SEC - 1 ->
  normalized (timespec_sub_nsecs n w).
Proof.
  intros Hn Hu Hhi Hlo.
  rewrite (timespec_sub_nsecs_fields n w Hn Hu Hhi Hlo).
  pose proof (mod_NS_range n) as Hr.
  unfold normalized in *.
  destruct (_ >? _) eqn:C; simpl; lia.
Qed.

(** C1, at an input where it fails: 300_000_000 ns subtracted from
    {10 s, 100_000_000 ns}, an interval not above the flattened value.  The
    borrow branch is taken and leaves {9 s, 200_000_000 ns}, which flattens
    to 9_200_000_000, where the difference is 9_800_000_000. *)
Theorem timespec_sub_nsecs_borrow_wrong :
  let w := {| tv_sec := 10; tv_nsec := 100000000 |} in
  let n := 300000000 in
  normalizedb w = true
  /\ n <= flat w
  /\ timespec_sub_nsecs n w = {| tv_sec := 9; tv_nsec := 200000000 |}
  /\ flat (timespec_sub_nsecs n w) = 9200000000
  /\ flat w - n = 9800000000
  /\ flat (timespec_sub_nsecs n w) <> flat w - n.
Proof. cbv zeta. repeat split; vm_compute; discriminate. Qed.

(** ** Logging wrappers: log on success, log and abort on failure *)

Section FailFast.

Context {P : Platform}.

Local Open Scope string_scope.
Local Open Scope Z_scope.

(** What the common body of the wrappers does with the result of the
    primitive. *)
Lemma wrapper_body (prim : world -> Z * world) (fmt_ok fmt_err : string)
      (obj : ptr) (cs : call_site) (s : state) (rc : Z) (w' : world) :
  prim (st_world s) = (rc, w') ->
  bind (call prim)
       (fun rc =>
          if rc =? 0 then
            LogFullDebug COMPONENT_RW_LOCK fmt_ok (site_args obj cs)
          else
            bind (LogCrit COMPONENT_RW_LOCK fmt_err
                          (ArgInt rc :: site_args obj cs))
                 (fun _ => abort)) s
  = if rc =? 0 then
      (Returned tt,
       {| st_world := w';
          st_log := st_log s ++ [mk_log_call NIV_FULL_DEBUG COMPONENT_RW_LOCK
                                   fmt_ok (site_args obj cs)] |})
    else
      (Aborted,
       {| st_world := w';
          st_log := st_log s ++ [mk_log_call NIV_CRIT COMPONENT_RW_LOCK
                                   fmt_err
                                   (ArgInt rc :: site_args obj cs)] |}).
Proof.
  intros E. unfold bind, call. rewrite E.
  destruct (rc =? 0); reflexivity.
Qed.

(** Every wrapper is an instance of that body. *)
Lemma run_sync_body (op : sync_op) (cs : call_site) (s : state)
      (rc : Z) (w' : world) :
  primitive op (st_world s) = (rc, w') ->
  exists fmt_ok fmt_err,
    run_sync op cs s
    = if rc =? 0 then
        (Returned tt,
         {| st_world := w';
            st_log := st_log s
                      ++ [mk_log_call NIV_FULL_DEBUG COMPONENT_RW_LOCK fmt_ok
                            (site_args (sync_object op) cs)] |})
      else
        (Aborted,
         {| st_world := w';
            st_log := st_log s
                      ++ [mk_log_call NIV_CRIT COMPONENT_RW_LOCK fmt_err
                            (ArgInt rc :: site_args (sync_object op) cs)] |}).
Proof.
  intros E.
  destruct op; simpl in E |- *;
    eexists; eexists; eapply wrapper_body; exact E.
Qed.

(** C3. For each of the eleven wrappers (rwlock init, destroy, wrlock,
    rdlock, unlock; mutex lock, unlock, init, destroy; cond init, destroy)
    and every result [rc] of the pthread primitive it calls: when [rc] is 0
    the wrapper makes one full-debug logging call with the call site and
    returns; when [rc] is not 0 it makes one critical logging call whose
    first argument is [rc] and the process aborts -- in no state does the
    wrapper return then. *)
Theorem sync_wrappers_fail_fast (op : sync_op) (cs : call_site) (s : state)
        (rc : Z) (w' : world) :
  primitive op (st_world s) = (rc, w') ->
  (rc = 0 ->
   exists d,
     run_sync op cs s
     = (Returned tt, {| st_world := w'; st_log := st_log s ++ [d] |})
     /\ log_level d = NIV_FULL_DEBUG
     /\ log_args d = site_args (sync_object op) cs)
  /\ (rc <> 0 ->
      (exists d,
          run_sync op cs s
          = (Aborted, {| st_world := w'; st_log := st_log s ++ [d] |})
          /\ log_level d = NIV_CRIT
          /\ log_args d = ArgInt rc :: site_args (sync_object op) cs)
      /\ forall s', run_sync op cs s <> (Returned tt, s')).
Proof.
  intros E. destruct (run_sync_body op cs s rc w' E) as (f1 & f2 & R).
  split; intros Hrc.
  - subst rc. simpl in R. eexists. split; [exact R|]. split; reflexivity.
  - apply Z.eqb_neq in Hrc. rewrite Hrc in R. split.
    + eexists. split; [exact R|]. split; reflexivity.
    + intros s'. rewrite R. discriminate.
Qed.

(** ** The clock *)

(** X29. When [clock_gettime] returns 0, [now] returns with the timespec
    the clock supplied and logs nothing, in every build.  When it returns
    anything else, [now] makes the critical logging call and, in a build
    without [NDEBUG], the failed [assert (0)] aborts the process: [now] does
    not return, with no time at all. *)
Theorem now_clock_or_abort (ts : timespec) (s : state)
        (rc : Z) (ts' : timespec) (w' : world) :
  clock_gettime CLOCK_REALTIME ts (st_world s) = ((rc, ts'), w') ->
  (rc = 0 ->
   forall NDEBUG,
     now NDEBUG ts s
     = (Returned ts', {| st_world := w'; st_log := st_log s |}))
  /\ (rc <> 0 ->
      now false ts s
      = (Aborted,
         {| st_world := w';
            st_log := st_log s
                      ++ [mk_log_call NIV_CRIT COMPONENT_MAIN
                            "Failed to get timestamp" []] |})
      /\ forall t s', now false ts s <> (Returned t, s')).
Proof.
  intros E. split; intros Hrc.
  - intros nd. subst rc. unfold now, bind, call. rewrite E. reflexivity.
  - apply Z.eqb_neq in Hrc.
    assert (R : now false ts s
                = (Aborted,
                   {| st_world := w';
                      st_log := st_log s
                                ++ [mk_log_call NIV_CRIT COMPONENT_MAIN
                                      "Failed to get timestamp" []] |})).
    { unfold now, bind, call. rewrite E. rewrite Hrc. reflexivity. }
    split; [exact R|]. intros t s'. rewrite R. discriminate.
Qed.

(** X24. In a translation unit compiled with [NDEBUG] the [assert (0)] is
    empty: after a failed clock call [now] makes the critical logging call
    and returns with whatever the call left in [*ts]. *)
Lemma now_NDEBUG (ts : timespec) (s : state)
      (rc : Z) (ts' : timespec) (w' : world) :
  clock_gettime CLOCK_REALTIME ts (st_world s) = ((rc, ts'), w') ->
  rc <> 0 ->
  now true ts s
  = (Returned ts',
     {| st_world := w';
        st_log := st_log s
                  ++ [mk_log_call NIV_CRIT COMPONENT_MAIN
                        "Failed to get timestamp" []] |}).
Proof.
  intros E Hrc. apply Z.eqb_neq in Hrc.
  unfold now, bind, call. rewrite E. rewrite Hrc. reflexivity.
Qed.

End FailFast.

Lemma sync_wrappers_fail_fast_witness :
  (exists d,
      run_sync (MUTEX_lock 4096) here (at_call 0 [])
      = (Returned tt, at_call 1 ([] ++ [d]))
      /\ log_level d = NIV_FULL_DEBUG
      /\ log_args d = site_args 4096 here)
  /\ (exists d,
         run_sync (RWLOCK_wrlock 0) here (at_call 0 [])
         = (Aborted, at_call 1 ([] ++ [d]))
         /\ log_level d = NIV_CRIT
         /\ log_args d = ArgInt 22 :: site_args 0 here).
Proof.
  split.
  - apply (proj1 (sync_wrappers_fail_fast
                    (P := counting_platform) (MUTEX_lock 4096) here
                    (at_call 0 []) 0 1%nat eq_refl)).
    reflexivity.
  - apply (proj2 (sync_wrappers_fail_fast
                    (P := counting_platform) (RWLOCK_wrlock 0) here
                    (at_call 0 []) 22 1%nat eq_refl)).
    discriminate.
Defined.

Lemma now_clock_or_abort_witness :
  now false {| tv_sec := 0; tv_nsec := 0 |} (at_call 1 [])
  = (Returned {| tv_sec := 1700000001; tv_nsec := 0 |}, at_call 2 [])
  /\ now false {| tv_sec := 0; tv_nsec := 0 |} (at_call 3 [])
     = (Aborted,
        at_call 4 ([] ++ [mk_log_call NIV_CRIT COMPONENT_MAIN
                            "Failed to get timestamp" []])).
Proof.
  split.
  - apply (proj1 (now_clock_or_abort
                    (P := counting_platform)
                    {| tv_sec := 0; tv_nsec := 0 |} (at_call 1 [])
                    0 {| tv_sec := 1700000001; tv_nsec := 0 |} 2%nat
                    eq_refl)).
    reflexivity.
  - apply (proj2 (now_clock_or_abort
                    (P := counting_platform)
                    {| tv_sec := 0; tv_nsec := 0 |} (at_call 3 [])
                    (-1) {| tv_sec := 0; tv_nsec := 0 |} 4%nat
                    eq_refl)).
    discriminate.
Defined.

(** C8, at an input where it fails: a translation unit compiled with
    [NDEBUG] and a clock call that returns -1 and leaves [*ts] alone.
    [now] makes the critical logging call, the [assert (0)] is empty, and
    [now] returns to its caller with the stale timespec.  On the same state
    a wrapper whose primitive fails aborts, as it calls [abort] itself, and
    so does [now] without [NDEBUG]. *)
Theorem now_returns_after_clock_failure :
  let ts := {| tv_sec := 7; tv_nsec := 7 |} in
  let crit := mk_log_call NIV_CRIT COMPONENT_MAIN
                "Failed to get timestamp" [] in
  clock_gettime CLOCK_REALTIME ts (st_world (at_call 3 []))
  = ((-1, ts), 4%nat)
  /\ now true ts (at_call 3 []) = (Returned ts, at_call 4 [crit])
  /\ now false ts (at_call 3 []) = (Aborted, at_call 4 [crit])
  /\ fst (run_sync (MUTEX_lock 0) here (at_call 3 [])) = Aborted.
Proof. cbv zeta. repeat split. Qed.

(** ** Bounded string helpers *)

Lemma strlen_nonneg (s : list byte) (n : Z) : strlen s = Some n -> 0 <= n.
Proof.
  revert n. induction s as [|c s IH]; simpl; intros n H; [discriminate|].
  destruct (Byte.eqb c NUL).
  - inversion H. lia.
  - destruct (strlen s) as [m|]; [|discriminate].
    inversion H. specialize (IH m eq_refl). lia.
Qed.

(** A string and its terminator are the first [strlen + 1] bytes of the
    buffer that holds it. *)
Lemma strlen_firstn (s : list byte) (n : Z) :
  strlen s = Some n ->
  firstn (Z.to_nat (n + 1)) s = c_str s ++ [NUL]
  /\ Z.of_nat (List.length (c_str s)) = n
  /\ n < Z.of_nat (List.length s).
Proof.
  revert n. induction s as [|c s IH]; simpl; intros n H; [discriminate|].
  destruct (Byte.eqb c NUL) eqn:E.
  - inversion H; subst n. apply Byte.byte_dec_bl in E. subst c.
    simpl. repeat split; lia.
  - destruct (strlen s) as [m|] eqn:Em; [|discriminate].
    inversion H; subst n. destruct (IH m eq_refl) as (F & L & B).
    pose proof (strlen_nonneg s m Em) as Hm.
    replace (Z.to_nat (m + 1 + 1)) with (S (Z.to_nat (m + 1))) by lia.
    simpl. rewrite F. repeat split; lia.
Qed.

Lemma c_str_app_NUL (t rest : list byte) :
  c_str t = t -> c_str (t ++ NUL :: rest) = t.
Proof.
  induction t as [|c t IH]; simpl; intros H; [reflexivity|].
  destruct (Byte.eqb c NUL); [discriminate|].
  inversion H as [H']. rewrite H'. now rewrite (IH H').
Qed.

Lemma c_str_idem (s : list byte) : c_str (c_str s) = c_str s.
Proof.
  induction s as [|c s IH]; simpl; [reflexivity|].
  destruct (Byte.eqb c NUL) eqn:E; simpl; [reflexivity|].
  now rewrite E, IH.
Qed.

Lemma c_str_prefix (s : list byte) (n : Z) :
  strlen s = Some n -> firstn (Z.to_nat n) s = c_str s.
Proof.
  revert n. induction s as [|c s IH]; simpl; intros n H; [discriminate|].
  destruct (Byte.eqb c NUL) eqn:E.
  - inversion H; subst n. reflexivity.
  - destruct (strlen s) as [m|] eqn:Em; [|discriminate].
    inversion H; subst n. pose proof (strlen_nonneg s m Em) as Hm.
    replace (Z.to_nat (m + 1)) with (S (Z.to_nat m)) by lia.
    simpl. now rewrite (IH m eq_refl).
Qed.

(** Where the length fits an [int] with room for the terminator,
    [strmaxcpy] copies exactly when the string is shorter than [dest_size]:
    the buffer then starts with the string and its terminator; otherwise the
    result is -1 and the buffer is as it was. *)
Lemma strmaxcpy_in_range (dest src : list byte) (dest_size n : Z) :
  Z.of_nat (List.length dest) = dest_size ->
  strlen src = Some n -> n < two31 - 1 ->
  strmaxcpy dest src dest_size
  = if n <? dest_size
    then Done (0, c_str src ++ [NUL] ++ skipn (Z.to_nat (n + 1)) dest)
    else Done (-1, dest).
Proof.
  intros Hd Hs Hn. pose proof (strlen_nonneg src n Hs) as H0.
  destruct (strlen_firstn src n Hs) as (F & L & B).
  unfold strmaxcpy. rewrite Hs. cbv zeta.
  rewrite (s32_small n) by (unfold in_s32, two31 in *; lia).
  rewrite (s32_small (n + 1)) by (unfold in_s32, two31 in *; lia).
  rewrite (u64_small n), (u64_small (n + 1))
    by (unfold in_u64, two64, two31 in *; lia).
  rewrite Z.geb_leb.
  destruct (n <? dest_size) eqn:C.
  - replace (dest_size <=? n) with false by lia.
    unfold memcpy.
    replace ((0 <=? 0) && (0 + (n + 1) <=? Z.of_nat (List.length dest))
             && (n + 1 <=? Z.of_nat (List.length src))) with true by lia.
    rewrite F. simpl firstn. rewrite Z.add_0_l, <- app_assoc. reflexivity.
  - replace (dest_size <=? n) with true by lia. reflexivity.
Qed.

(** The same for [strmaxcat], where the buffer's size fits an [int] too:
    it appends exactly when both strings and a terminator fit
    [dest_size]. *)
Lemma strmaxcat_in_range (dest src : list byte) (dest_size nd ns : Z) :
  Z.of_nat (List.length dest) = dest_size -> dest_size < two31 ->
  strlen dest = Some nd -> strlen src = Some ns -> ns < two31 - 1 ->
  strmaxcat dest src dest_size
  = if nd + ns <? dest_size
    then Done (0, c_str dest ++ c_str src ++ [NUL]
                  ++ skipn (Z.to_nat (nd + ns + 1)) dest)
    else Done (-1, dest).
Proof.
  intros Hd Hsz Hnd Hns Hn.
  pose proof (strlen_nonneg dest nd Hnd) as H0.
  pose proof (strlen_nonneg src ns Hns) as H1.
  destruct (strlen_firstn dest nd Hnd) as (_ & _ & Bd).
  destruct (strlen_firstn src ns Hns) as (F & L & B).
  unfold strmaxcat. rewrite Hnd, Hns. cbv zeta.
  rewrite (s32_small nd) by (unfold in_s32, two31 in *; lia).
  rewrite (s32_small ns) by (unfold in_s32, two31 in *; lia).
  rewrite (s32_small (ns + 1)) by (unfold in_s32, two31 in *; lia).
  rewrite (u64_small nd), (u64_small (ns + 1))
    by (unfold in_u64, two64, two31 in *; lia).
  rewrite (u64_small (dest_size - nd))
    by (unfold in_u64, two64, two31 in *; lia).
  rewrite (s32_small (dest_size - nd)) by (unfold in_s32, two31 in *; lia).
  destruct (nd + ns <? dest_size) eqn:C.
  - replace (dest_size - nd <=? ns) with false by lia.
    unfold memcpy.
    replace ((0 <=? nd) && (nd + (ns + 1) <=? Z.of_nat (List.length dest))
             && (ns + 1 <=? Z.of_nat (List.length src))) with true by lia.
    rewrite F, (c_str_prefix dest nd Hnd), <- app_assoc.
    replace (nd + (ns + 1)) with (nd + ns + 1) by lia. reflexivity.
  - replace (dest_size - nd <=? ns) with true by lia. reflexivity.
Qed.

(** The two cases the specification works out: "hi" into a buffer of four
    bytes, and into one of two. *)
Example strmaxcpy_hi_4 :
  strmaxcpy [x77; x78; x79; x7a] (bytes_of "hi" ++ [NUL]) 4
  = Done (0, bytes_of "hi" ++ [NUL; x7a]).
Proof. reflexivity. Qed.

Example strmaxcpy_hi_2 :
  strmaxcpy [x77; x78] (bytes_of "hi" ++ [NUL]) 2 = Done (-1, [x77; x78]).
Proof. reflexivity. Qed.

Example strmaxcat_hi_8 :
  strmaxcat (bytes_of "oh " ++ [NUL; x77; x78; x79; x7a])
            (bytes_of "hi" ++ [NUL]) 8
  = Done (0, bytes_of "oh hi" ++ [NUL; x79; x7a]).
Proof. reflexivity. Qed.

Example strmaxcat_hi_5 :
  strmaxcat (bytes_of "oh " ++ [NUL; x77]) (bytes_of "hi" ++ [NUL]) 5
  = Done (-1, bytes_of "oh " ++ [NUL; x77]).
Proof. reflexivity. Qed.

(** *** Lengths that do not fit an [int] *)

Lemma strlen_repeat (k : nat) (rest : list byte) :
  strlen (repeat x61 k ++ NUL :: rest) = Some (Z.of_nat k).
Proof.
  induction k as [|k IH].
  - reflexivity.
  - cbn [repeat app strlen]. rewrite IH.
    change (Byte.eqb x61 NUL) with false. cbv iota.
    f_equal. lia.
Qed.

(** A source whose length is 1 modulo 2^32: [len] is 1, the test against
    [dest_size] passes for every size above 1, and two bytes are copied. *)
Lemma strmaxcpy_length_wraps (k : nat) (dest : list byte) (dest_size : Z) :
  s32 (Z.of_nat k) = 1 -> (2 <= k)%nat ->
  1 < dest_size -> (2 <= List.length dest)%nat ->
  strmaxcpy dest (repeat x61 k ++ [NUL]) dest_size
  = Done (0, x61 :: x61 :: skipn 2 dest).
Proof.
  intros Hk H2 Hsz Hd.
  unfold strmaxcpy. rewrite strlen_repeat. cbv zeta. rewrite Hk.
  change (u64 1) with 1. change (u64 (s32 (1 + 1))) with 2.
  replace (1 >=? dest_size) with false by lia.
  unfold memcpy.
  replace ((0 <=? 0) && (0 + 2 <=? Z.of_nat (List.length dest))
           && (2 <=? Z.of_nat (List.length (repeat x61 k ++ [NUL]))))
    with true.
  2:{ rewrite length_app, repeat_length. symmetry.
      rewrite !andb_true_iff, !Z.leb_le. simpl List.length. lia. }
  destruct k as [|[|k]]; [lia|lia|]. reflexivity.
Qed.

Lemma long_src_length : Z.of_nat (Z.to_nat 4294967297) = 4294967297.
Proof. lia. Qed.

(** C9, at an input where it fails: a source string of 2^32 + 1 bytes and a
    buffer of four, "wxyz".  The string is longer than the buffer, so the
    call has to answer -1 and leave the buffer alone; [len], an [int],
    is 1, the call answers 0 and the buffer is "aayz" without a
    terminator. *)
Theorem strmaxcpy_long_src :
  strlen long_src = Some 4294967297
  /\ strmaxcpy (bytes_of "wxyz") long_src 4 = Done (0, bytes_of "aayz")
  /\ strlen (bytes_of "aayz") = None.
Proof.
  unfold long_src. split; [|split].
  - exact (eq_trans (strlen_repeat (Z.to_nat 4294967297) [])
                    (f_equal Some long_src_length)).
  - assert (H1 : s32 (Z.of_nat (Z.to_nat 4294967297)) = 1)
      by (rewrite long_src_length; reflexivity).
    assert (H2 : (2 <= Z.to_nat 4294967297)%nat) by lia.
    assert (H3 : 1 < 4) by lia.
    assert (H4 : (2 <= List.length (bytes_of "wxyz"))%nat) by (simpl; lia).
    exact (strmaxcpy_length_wraps (Z.to_nat 4294967297) (bytes_of "wxyz") 4
             H1 H2 H3 H4).
  - reflexivity.
Qed.

(** A source whose length is 2^31 modulo 2^32: [srclen] is [INT_MIN], below
    every [remain] a buffer that fits an [int] can leave, and [memcpy] is
    asked for [srclen + 1] bytes as a [size_t], 2^64 - 2^31 + 1 of them. *)
Lemma strmaxcat_length_wraps (k : nat) (dest : list byte)
      (dest_size nd : Z) :
  s32 (Z.of_nat k) = - two31 ->
  Z.of_nat (List.length dest) = dest_size -> dest_size < two31 ->
  strlen dest = Some nd ->
  strmaxcat dest (repeat x61 k ++ [NUL]) dest_size = Undefined.
Proof.
  intros Hk Hd Hsz Hnd.
  pose proof (strlen_nonneg dest nd Hnd) as H0.
  destruct (strlen_firstn dest nd Hnd) as (_ & _ & Bd).
  unfold strmaxcat. rewrite Hnd, strlen_repeat. cbv zeta. rewrite Hk.
  rewrite (s32_small nd) by (unfold in_s32, two31 in *; lia).
  rewrite (u64_small nd) by (unfold in_u64, two64, two31 in *; lia).
  rewrite (u64_small (dest_size - nd))
    by (unfold in_u64, two64, two31 in *; lia).
  rewrite (s32_small (dest_size - nd)) by (unfold in_s32, two31 in *; lia).
  replace (dest_size - nd <=? - two31) with false
    by (unfold two31 in *; lia).
  change (u64 (s32 (- two31 + 1))) with 18446744071562067969.
  unfold memcpy.
  replace (nd + 18446744071562067969 <=? Z.of_nat (List.length dest))
    with false by (unfold two31 in *; lia).
  rewrite andb_false_r. reflexivity.
Qed.

Lemma two_gib_src_length : Z.of_nat (Z.to_nat 2147483648) = 2147483648.
Proof. lia. Qed.

(** The same defect in [strmaxcat]: a source string of 2^31 bytes appended
    to "oh" in a buffer of four.  Nothing fits, so the call has to answer -1;
    it goes on to a [memcpy] far beyond the buffer. *)
Lemma strmaxcat_two_gib_src :
  strlen two_gib_src = Some 2147483648
  /\ strmaxcat (bytes_of "oh" ++ [NUL; x7a]) two_gib_src 4 = Undefined.
Proof.
  unfold two_gib_src. split.
  - exact (eq_trans (strlen_repeat (Z.to_nat 2147483648) [])
                    (f_equal Some two_gib_src_length)).
  - assert (H1 : s32 (Z.of_nat (Z.to_nat 2147483648)) = - two31)
      by (rewrite two_gib_src_length; reflexivity).
    exact (strmaxcat_length_wraps (Z.to_nat 2147483648)
             (bytes_of "oh" ++ [NUL; x7a]) 4 2 H1 eq_refl eq_refl eq_refl).
Qed.

(** * Further properties of the time arithmetic *)

Lemma flat_inj (a b : timespec) :
  normalized a -> normalized b -> flat a = flat b -> a = b.
Proof.
  intros Ha Hb E. apply timespec_eq.
  - rewrite <- (div_NS (tv_sec a) (tv_nsec a) Ha).
    rewrite <- (div_NS (tv_sec b) (tv_nsec b) Hb). unfold flat in E.
    now rewrite E.
  - rewrite <- (mod_NS (tv_sec a) (tv_nsec a) Ha).
    rewrite <- (mod_NS (tv_sec b) (tv_nsec b) Hb). unfold flat in E.
    now rewrite E.
Qed.

Lemma flat_nsecs_to_timespec (n : Z) :
  in_u64 n -> flat (nsecs_to_timespec n) = n.
Proof.
  intros H. destruct (nsecs_to_timespec_fields n H) as [Es En].
  unfold flat. rewrite Es, En.
  pose proof (Z.div_mod n NS_PER_SEC) as D. unfold NS_PER_SEC in *. lia.
Qed.

Lemma normalized_nsecs_to_timespec (n : Z) :
  in_u64 n -> normalized (nsecs_to_timespec n).
Proof.
  intros H. destruct (nsecs_to_timespec_fields n H) as [_ En].
  unfold normalized. rewrite En. apply mod_NS_range.
Qed.

(** X1. For normalized timespecs, whatever their distance,
    [timespec_diff] is the exact distance reduced modulo 2^64. *)
Theorem timespec_diff_wraps (a b : timespec) :
  normalized a -> normalized b ->
  timespec_diff a b = Z.abs (flat a - flat b) mod two64.
Proof.
  intros Ha Hb. rewrite timespec_diff_mod. unfold u64.
  destruct (not_earlier a b) eqn:Hab.
  - pose proof (not_earlier_flat a b Ha Hb Hab). f_equal. lia.
  - pose proof (not_earlier_flat b a Hb Ha (not_earlier_total a b Hab)).
    f_equal. lia.
Qed.

Lemma timespec_diff_wraps_witness :
  timespec_diff {| tv_sec := 52359738368; tv_nsec := 7 |}
                {| tv_sec := 18000000000; tv_nsec := 9 |}
  = Z.abs (flat {| tv_sec := 52359738368; tv_nsec := 7 |}
           - flat {| tv_sec := 18000000000; tv_nsec := 9 |}) mod two64.
Proof.
  apply (timespec_diff_wraps {| tv_sec := 52359738368; tv_nsec := 7 |}
                             {| tv_sec := 18000000000; tv_nsec := 9 |});
    unfold normalized, NS_PER_SEC; simpl; lia.
Defined.

(** X2. Inside the range of the counter two normalized timespecs have
    difference 0 exactly when they are the same timespec. *)
Theorem timespec_diff_zero (a b : timespec) :
  normalized a -> normalized b -> Z.abs (flat a - flat b) < two64 ->
  (timespec_diff a b = 0 <-> a = b).
Proof.
  intros Ha Hb Hr. rewrite (timespec_diff_abs a b Ha Hb Hr). split.
  - intros E. apply (flat_inj a b Ha Hb). lia.
  - intros ->. lia.
Qed.

Lemma timespec_diff_zero_witness :
  timespec_diff {| tv_sec := 3; tv_nsec := 999999999 |}
                {| tv_sec := 3; tv_nsec := 999999999 |} = 0
  <-> {| tv_sec := 3; tv_nsec := 999999999 |}
      = {| tv_sec := 3; tv_nsec := 999999999 |}.
Proof.
  apply (timespec_diff_zero {| tv_sec := 3; tv_nsec := 999999999 |}
                            {| tv_sec := 3; tv_nsec := 999999999 |}).
  - unfold normalized, NS_PER_SEC; simpl; lia.
  - unfold normalized, NS_PER_SEC; simpl; lia.
  - unfold flat, two64, NS_PER_SEC; simpl; lia.
Defined.

(** X3. On normalized timespecs [gsh_time_cmp] is the order of the
    flattened values: -1, 0, 1 as the first is below, equal to, above the
    second. *)
Theorem gsh_time_cmp_flat (a b : timespec) :
  normalized a -> normalized b ->
  (gsh_time_cmp a b = -1 <-> flat a < flat b)
  /\ (gsh_time_cmp a b = 0 <-> flat a = flat b)
  /\ (gsh_time_cmp a b = 1 <-> flat b < flat a).
Proof.
  intros Ha Hb.
  rewrite gsh_time_cmp_lt, gsh_time_cmp_eq, gsh_time_cmp_gt.
  unfold normalized, flat, NS_PER_SEC in *. lia.
Qed.

Lemma gsh_time_cmp_flat_witness :
  (gsh_time_cmp {| tv_sec := -2; tv_nsec := 999999999 |}
                {| tv_sec := -1; tv_nsec := 0 |} = -1
   <-> flat {| tv_sec := -2; tv_nsec := 999999999 |}
       < flat {| tv_sec := -1; tv_nsec := 0 |}).
Proof.
  apply (gsh_time_cmp_flat {| tv_sec := -2; tv_nsec := 999999999 |}
                           {| tv_sec := -1; tv_nsec := 0 |});
    unfold normalized, NS_PER_SEC; simpl; lia.
Defined.

(** X4. Exchanging the arguments of [gsh_time_cmp] negates the result, for
    all timespecs. *)
Theorem gsh_time_cmp_swap (a b : timespec) :
  gsh_time_cmp b a = - gsh_time_cmp a b.
Proof.
  destruct (gsh_time_cmp_cases a b) as [E|[E|E]]; rewrite E.
  - apply gsh_time_cmp_gt. apply gsh_time_cmp_lt in E. lia.
  - apply gsh_time_cmp_eq. apply gsh_time_cmp_eq in E. lia.
  - apply gsh_time_cmp_lt. apply gsh_time_cmp_gt in E. lia.
Qed.

(** X5. "Not later" is transitive: when [a] is not after [b] and [b] is
    not after [c], [a] is not after [c]. *)
Theorem gsh_time_cmp_le_trans (a b c : timespec) :
  gsh_time_cmp a b <> 1 -> gsh_time_cmp b c <> 1 -> gsh_time_cmp a c <> 1.
Proof. rewrite !gsh_time_cmp_gt. lia. Qed.

Lemma gsh_time_cmp_le_trans_witness :
  gsh_time_cmp {| tv_sec := 4; tv_nsec := 8 |}
               {| tv_sec := 5; tv_nsec := 1 |} <> 1.
Proof.
  apply (gsh_time_cmp_le_trans {| tv_sec := 4; tv_nsec := 8 |}
                               {| tv_sec := 4; tv_nsec := 8 |}
                               {| tv_sec := 5; tv_nsec := 1 |});
    vm_compute; discriminate.
Defined.

(** X6. Inside the range of the counter [timespec_to_nsecs] keeps the
    order: for normalized timespecs with non-negative seconds and flattened
    value below 2^64, [gsh_time_cmp a b = -1] exactly when the
    nanosecond count of [a] is below that of [b], and 0 exactly when the
    counts are equal. *)
Theorem timespec_to_nsecs_order (a b : timespec) :
  normalized a -> normalized b ->
  0 <= tv_sec a -> 0 <= tv_sec b -> flat a < two64 -> flat b < two64 ->
  (gsh_time_cmp a b = -1 <-> timespec_to_nsecs a < timespec_to_nsecs b)
  /\ (gsh_time_cmp a b = 0 <-> timespec_to_nsecs a = timespec_to_nsecs b).
Proof.
  intros Ha Hb Sa Sb Ra Rb.
  rewrite (timespec_to_nsecs_flat a), (timespec_to_nsecs_flat b)
    by (unfold in_u64, flat, normalized, NS_PER_SEC in *; lia).
  rewrite gsh_time_cmp_lt, gsh_time_cmp_eq.
  unfold normalized, flat, NS_PER_SEC in *. lia.
Qed.

Lemma timespec_to_nsecs_order_witness :
  gsh_time_cmp {| tv_sec := 1; tv_nsec := 999999999 |}
               {| tv_sec := 2; tv_nsec := 0 |} = -1
  <-> timespec_to_nsecs {| tv_sec := 1; tv_nsec := 999999999 |}
      < timespec_to_nsecs {| tv_sec := 2; tv_nsec := 0 |}.
Proof.
  apply (timespec_to_nsecs_order {| tv_sec := 1; tv_nsec := 999999999 |}
                                 {| tv_sec := 2; tv_nsec := 0 |});
    unfold normalized, flat, two64, NS_PER_SEC; simpl; lia.
Defined.

(** X7. [nsecs_to_timespec] keeps the order: for counts [m] and [n] of the
    64-bit counter the timespec of [m] compares below that of [n] exactly
    when [m < n], and equal exactly when [m = n]. *)
Theorem nsecs_to_timespec_order (m n : nsecs_elapsed_t) :
  in_u64 m -> in_u64 n ->
  (gsh_time_cmp (nsecs_to_timespec m) (nsecs_to_timespec n) = -1 <-> m < n)
  /\ (gsh_time_cmp (nsecs_to_timespec m) (nsecs_to_timespec n) = 0
      <-> m = n).
Proof.
  intros Hm Hn.
  pose proof (normalized_nsecs_to_timespec m Hm) as Nm.
  pose proof (normalized_nsecs_to_timespec n Hn) as Nn.
  pose proof (flat_nsecs_to_timespec m Hm) as Fm.
  pose proof (flat_nsecs_to_timespec n Hn) as Fn.
  rewrite gsh_time_cmp_lt, gsh_time_cmp_eq.
  unfold normalized, flat, NS_PER_SEC in *. lia.
Qed.

Lemma nsecs_to_timespec_order_witness :
  gsh_time_cmp (nsecs_to_timespec 999999999) (nsecs_to_timespec 1000000000)
  = -1 <-> 999999999 < 1000000000.
Proof.
  apply (nsecs_to_timespec_order 999999999 1000000000);
    unfold in_u64, two64; lia.
Defined.

(** X8. The difference of the timespecs of two counts is the distance of
    the counts. *)
Theorem timespec_diff_nsecs_to_timespec (m n : nsecs_elapsed_t) :
  in_u64 m -> in_u64 n ->
  timespec_diff (nsecs_to_timespec m) (nsecs_to_timespec n) = Z.abs (m - n).
Proof.
  intros Hm Hn.
  rewrite <- (flat_nsecs_to_timespec m Hm) at 2.
  rewrite <- (flat_nsecs_to_timespec n Hn) at 2.
  apply timespec_diff_abs.
  - now apply normalized_nsecs_to_timespec.
  - now apply normalized_nsecs_to_timespec.
  - rewrite (flat_nsecs_to_timespec m Hm), (flat_nsecs_to_timespec n Hn).
    unfold in_u64 in *. lia.
Qed.

Lemma timespec_diff_nsecs_to_timespec_witness :
  timespec_diff (nsecs_to_timespec 18446744073709551615)
                (nsecs_to_timespec 1)
  = Z.abs (18446744073709551615 - 1).
Proof.
  apply (timespec_diff_nsecs_to_timespec 18446744073709551615 1);
    unfold in_u64, two64; lia.
Defined.

(** X9. For every timespec, also before the epoch or beyond the range of
    the counter, [timespec_to_nsecs] is the flattened value reduced modulo
    2^64. *)
Theorem timespec_to_nsecs_wraps (w : timespec) :
  timespec_to_nsecs w = flat w mod two64.
Proof.
  unfold timespec_to_nsecs. rewrite u64_mul_l, u64_add. reflexivity.
Qed.

(** ** Adding and subtracting, composed *)

(** [timespec_add_nsecs] on a timespec whose nanoseconds are at most 10^9,
    the value a missed carry leaves. *)
Lemma timespec_add_nsecs_eq (n : nsecs_elapsed_t) (w : timespec) :
  0 <= tv_nsec w <= NS_PER_SEC -> in_u64 n ->
  - two63 <= tv_sec w -> tv_sec w + n / NS_PER_SEC + 1 < two63 ->
  timespec_add_nsecs n w
  = if tv_nsec w + n mod NS_PER_SEC >? NS_PER_SEC then
      {| tv_sec := tv_sec w + n / NS_PER_SEC + 1;
         tv_nsec := tv_nsec w + n mod NS_PER_SEC - NS_PER_SEC |}
    else
      {| tv_sec := tv_sec w + n / NS_PER_SEC;
         tv_nsec := tv_nsec w + n mod NS_PER_SEC |}.
Proof.
  intros Hn Hu Hlo Hhi.
  pose proof (div_NS_range n Hu) as Hq. pose proof (mod_NS_range n) as Hr.
  set (sum := tv_nsec w + n mod NS_PER_SEC).
  assert (E1 : s64 (u64 (u64 (tv_sec w) + n / NS_PER_SEC))
               = tv_sec w + n / NS_PER_SEC).
  { rewrite u64_add_l, s64_u64. apply s64_small. unfold in_s64. lia. }
  assert (E2 : s64 (u64 (u64 (tv_nsec w) + n mod NS_PER_SEC)) = sum).
  { rewrite u64_add_l, s64_u64. apply s64_small.
    unfold in_s64, two63, NS_PER_SEC in *. subst sum. lia. }
  assert (E3 : u64 sum = sum).
  { apply u64_small. unfold in_u64, two64, NS_PER_SEC in *. subst sum. lia. }
  unfold timespec_add_nsecs. rewrite E1, E2, E3.
  destruct (sum >? NS_PER_SEC) eqn:C; [|reflexivity].
  assert (D : sum / NS_PER_SEC = 1 /\ sum mod NS_PER_SEC = sum - NS_PER_SEC).
  { unfold NS_PER_SEC in *. subst sum.
    split; Z.div_mod_to_equations; lia. }
  destruct D as [D1 D2]. rewrite D1, D2.
  apply timespec_eq; cbn [tv_sec tv_nsec].
  - rewrite u64_add_l, s64_u64. apply s64_small. unfold in_s64. lia.
  - apply s64_small. unfold in_s64, two63, NS_PER_SEC in *. subst sum. lia.
Qed.

Lemma timespec_sub_nsecs_eq (n : nsecs_elapsed_t) (w : timespec) :
  0 <= tv_nsec w <= NS_PER_SEC -> in_u64 n ->
  tv_sec w < two63 -> - two63 <= tv_sec w - n / NS_PER_SEC - 1 ->
  timespec_sub_nsecs n w
  = if n mod NS_PER_SEC >? tv_nsec w then
      {| tv_sec := tv_sec w - (n / NS_PER_SEC + 1);
         tv_nsec := n mod NS_PER_SEC - tv_nsec w |}
    else
      {| tv_sec := tv_sec w - n / NS_PER_SEC;
         tv_nsec := tv_nsec w - n mod NS_PER_SEC |}.
Proof.
  intros Hn Hu Hhi Hlo.
  pose proof (div_NS_range n Hu) as Hq. pose proof (mod_NS_range n) as Hr.
  destruct (nsecs_to_timespec_fields n Hu) as [Es En].
  unfold timespec_sub_nsecs. rewrite Es, En.
  destruct (_ >? _) eqn:C; apply timespec_eq; cbn [tv_sec tv_nsec].
  - rewrite (s64_small (n / NS_PER_SEC + 1))
      by (unfold in_s64, two63; lia).
    apply s64_small. unfold in_s64. lia.
  - apply s64_small. unfold in_s64, two63, NS_PER_SEC in *. lia.
  - apply s64_small. unfold in_s64. lia.
  - apply s64_small. unfold in_s64, two63, NS_PER_SEC in *. lia.
Qed.

(** X10. An interval of 0 changes nothing: on a normalized timespec both
    [timespec_add_nsecs 0] and [timespec_sub_nsecs 0] are the identity. *)
Theorem timespec_add_sub_zero (w : timespec) :
  wf_timespec w -> normalized w ->
  timespec_add_nsecs 0 w = w /\ timespec_sub_nsecs 0 w = w.
Proof.
  intros [Hs Hns] Hn. unfold normalized in Hn. split.
  - unfold timespec_add_nsecs.
    change (0 / NS_PER_SEC) with 0. change (0 mod NS_PER_SEC) with 0.
    rewrite !Z.add_0_r, !u64_idem, !s64_u64.
    rewrite (s64_small _ Hs), (s64_small _ Hns).
    rewrite (u64_small (tv_nsec w))
      by (unfold in_u64, two64, NS_PER_SEC in *; lia).
    replace (tv_nsec w >? NS_PER_SEC) with false by lia.
    now apply timespec_eq.
  - unfold timespec_sub_nsecs.
    change (nsecs_to_timespec 0) with {| tv_sec := 0; tv_nsec := 0 |}.
    cbn [tv_sec tv_nsec]. replace (0 >? tv_nsec w) with false by lia.
    rewrite !Z.sub_0_r, (s64_small _ Hs), (s64_small _ Hns).
    now apply timespec_eq.
Qed.

Lemma timespec_add_sub_zero_witness :
  timespec_add_nsecs 0 {| tv_sec := -5; tv_nsec := 999999999 |}
  = {| tv_sec := -5; tv_nsec := 999999999 |}
  /\ timespec_sub_nsecs 0 {| tv_sec := -5; tv_nsec := 999999999 |}
     = {| tv_sec := -5; tv_nsec := 999999999 |}.
Proof.
  apply (timespec_add_sub_zero {| tv_sec := -5; tv_nsec := 999999999 |}).
  - unfold wf_timespec, in_s64, two63; simpl; lia.
  - unfold normalized, NS_PER_SEC; simpl; lia.
Defined.

(** X11. Adding a positive interval moves a normalized timespec forward:
    the result compares above the start, and [timespec_diff] between the
    two is the interval. *)
Theorem timespec_add_nsecs_later (n : nsecs_elapsed_t) (w : timespec) :
  normalized w -> in_u64 n -> 0 < n ->
  - two63 <= tv_sec w -> tv_sec w + n / NS_PER_SEC + 1 < two63 ->
  gsh_time_cmp w (timespec_add_nsecs n w) = -1
  /\ timespec_diff w (timespec_add_nsecs n w) = n.
Proof.
  intros Hn Hu Hp Hlo Hhi.
  pose proof (div_NS_range n Hu) as Hq. pose proof (mod_NS_range n) as Hr.
  pose proof (Z.div_mod n NS_PER_SEC) as D.
  unfold normalized in Hn.
  rewrite (timespec_add_nsecs_eq n w) by (auto; lia). split.
  - apply gsh_time_cmp_lt.
    destruct (_ >? _) eqn:C; cbn [tv_sec tv_nsec];
      unfold NS_PER_SEC in *; lia.
  - rewrite timespec_diff_mod.
    destruct (_ >? _) eqn:C; unfold not_earlier, flat; cbn [tv_sec tv_nsec].
    + replace ((tv_sec w + n / NS_PER_SEC + 1 >? tv_sec w) || _) with true
        by lia.
      rewrite <- (u64_small n Hu) at 3. f_equal.
      unfold NS_PER_SEC in *. lia.
    + replace ((tv_sec w + n / NS_PER_SEC >? tv_sec w) || _) with true
        by (unfold NS_PER_SEC in *; lia).
      rewrite <- (u64_small n Hu) at 3. f_equal.
      unfold NS_PER_SEC in *. lia.
Qed.

Lemma timespec_add_nsecs_later_witness :
  gsh_time_cmp {| tv_sec := 10; tv_nsec := 500000000 |}
               (timespec_add_nsecs 500000000
                  {| tv_sec := 10; tv_nsec := 500000000 |}) = -1
  /\ timespec_diff {| tv_sec := 10; tv_nsec := 500000000 |}
                   (timespec_add_nsecs 500000000
                      {| tv_sec := 10; tv_nsec := 500000000 |})
     = 500000000.
Proof.
  apply (timespec_add_nsecs_later 500000000
           {| tv_sec := 10; tv_nsec := 500000000 |}).
  - unfold normalized, NS_PER_SEC; simpl; lia.
  - unfold in_u64, two64; lia.
  - lia.
  - unfold two63; simpl; lia.
  - unfold two63, NS_PER_SEC; simpl. vm_compute. reflexivity.
Defined.

(** X12. Subtracting what was just added gives the timespec back whenever
    the addition took no carry, i.e. the nanosecond sum is at most 10^9. *)
Theorem timespec_sub_add_no_carry (n : nsecs_elapsed_t) (w : timespec) :
  normalized w -> in_u64 n ->
  - two63 < tv_sec w -> tv_sec w + n / NS_PER_SEC + 1 < two63 ->
  tv_nsec w + n mod NS_PER_SEC <= NS_PER_SEC ->
  timespec_sub_nsecs n (timespec_add_nsecs n w) = w.
Proof.
  intros Hn Hu Hlo Hhi Hc.
  pose proof (div_NS_range n Hu) as Hq. pose proof (mod_NS_range n) as Hr.
  unfold normalized in Hn.
  rewrite (timespec_add_nsecs_eq n w) by (auto; lia).
  replace (tv_nsec w + n mod NS_PER_SEC >? NS_PER_SEC) with false by lia.
  rewrite timespec_sub_nsecs_eq; cbn [tv_sec tv_nsec]; auto; try lia.
  replace (n mod NS_PER_SEC >? tv_nsec w + n mod NS_PER_SEC) with false
    by lia.
  apply timespec_eq; cbn [tv_sec tv_nsec]; lia.
Qed.

Lemma timespec_sub_add_no_carry_witness :
  timespec_sub_nsecs 2500000000
    (timespec_add_nsecs 2500000000 {| tv_sec := 10; tv_nsec := 500000000 |})
  = {| tv_sec := 10; tv_nsec := 500000000 |}.
Proof.
  apply (timespec_sub_add_no_carry 2500000000
           {| tv_sec := 10; tv_nsec := 500000000 |}).
  - unfold normalized, NS_PER_SEC; simpl; lia.
  - unfold in_u64, two64; lia.
  - unfold two63; simpl; lia.
  - vm_compute; reflexivity.
  - vm_compute; discriminate.
Defined.

(** X13. When the addition carried a second (nanosecond sum above 10^9),
    subtracting the same interval leaves the seconds of the start and
    [10^9 - tv_nsec] nanoseconds: that is the start exactly when its
    nanoseconds are 500_000_000, and another timespec otherwise. *)
Theorem timespec_sub_add_carry (n : nsecs_elapsed_t) (w : timespec) :
  normalized w -> in_u64 n ->
  - two63 < tv_sec w -> tv_sec w + n / NS_PER_SEC + 1 < two63 ->
  NS_PER_SEC < tv_nsec w + n mod NS_PER_SEC ->
  timespec_sub_nsecs n (timespec_add_nsecs n w)
  = {| tv_sec := tv_sec w; tv_nsec := NS_PER_SEC - tv_nsec w |}
  /\ (timespec_sub_nsecs n (timespec_add_nsecs n w) = w
      <-> tv_nsec w = 500000000).
Proof.
  intros Hn Hu Hlo Hhi Hc.
  pose proof (div_NS_range n Hu) as Hq. pose proof (mod_NS_range n) as Hr.
  unfold normalized in Hn.
  assert (E : timespec_sub_nsecs n (timespec_add_nsecs n w)
              = {| tv_sec := tv_sec w;
                   tv_nsec := NS_PER_SEC - tv_nsec w |}).
  { rewrite (timespec_add_nsecs_eq n w) by (auto; lia).
    replace (tv_nsec w + n mod NS_PER_SEC >? NS_PER_SEC) with true by lia.
    rewrite timespec_sub_nsecs_eq; cbn [tv_sec tv_nsec]; auto; try lia.
    replace (n mod NS_PER_SEC
             >? tv_nsec w + n mod NS_PER_SEC - NS_PER_SEC) with true by lia.
    apply timespec_eq; cbn [tv_sec tv_nsec]; lia. }
  split; [exact E|]. rewrite E. split.
  - intros H. apply (f_equal tv_nsec) in H. cbn [tv_nsec] in H.
    unfold NS_PER_SEC in H. lia.
  - intros H. apply timespec_eq; cbn [tv_sec tv_nsec];
      unfold NS_PER_SEC; lia.
Qed.

Lemma timespec_sub_add_carry_witness :
  timespec_sub_nsecs 600000000
    (timespec_add_nsecs 600000000 {| tv_sec := 10; tv_nsec := 700000000 |})
  = {| tv_sec := 10; tv_nsec := NS_PER_SEC - 700000000 |}
  /\ (timespec_sub_nsecs 600000000
        (timespec_add_nsecs 600000000
           {| tv_sec := 10; tv_nsec := 700000000 |})
      = {| tv_sec := 10; tv_nsec := 700000000 |}
      <-> 700000000 = 500000000).
Proof.
  apply (timespec_sub_add_carry 600000000
           {| tv_sec := 10; tv_nsec := 700000000 |}).
  - unfold normalized, NS_PER_SEC; simpl; lia.
  - unfold in_u64, two64; lia.
  - unfold two63; simpl; lia.
  - vm_compute; reflexivity.
  - vm_compute; reflexivity.
Defined.

(** X14. Adding back what was just subtracted gives the timespec back
    whenever the subtraction took no borrow. *)
Theorem timespec_add_sub_no_borrow (n : nsecs_elapsed_t) (w : timespec) :
  normalized w -> in_u64 n ->
  tv_sec w + 1 < two63 -> - two63 <= tv_sec w - n / NS_PER_SEC - 1 ->
  n mod NS_PER_SEC <= tv_nsec w ->
  timespec_add_nsecs n (timespec_sub_nsecs n w) = w.
Proof.
  intros Hn Hu Hhi Hlo Hb.
  pose proof (div_NS_range n Hu) as Hq. pose proof (mod_NS_range n) as Hr.
  unfold normalized in Hn.
  rewrite (timespec_sub_nsecs_eq n w) by (auto; lia).
  replace (n mod NS_PER_SEC >? tv_nsec w) with false by lia.
  rewrite timespec_add_nsecs_eq; cbn [tv_sec tv_nsec]; auto; try lia.
  replace (tv_nsec w - n mod NS_PER_SEC + n mod NS_PER_SEC >? NS_PER_SEC)
    with false by lia.
  apply timespec_eq; cbn [tv_sec tv_nsec]; lia.
Qed.

Lemma timespec_add_sub_no_borrow_witness :
  timespec_add_nsecs 3100000000
    (timespec_sub_nsecs 3100000000 {| tv_sec := 10; tv_nsec := 100000000 |})
  = {| tv_sec := 10; tv_nsec := 100000000 |}.
Proof.
  apply (timespec_add_sub_no_borrow 3100000000
           {| tv_sec := 10; tv_nsec := 100000000 |}).
  - unfold normalized, NS_PER_SEC; simpl; lia.
  - unfold in_u64, two64; lia.
  - unfold two63; simpl; lia.
  - vm_compute; discriminate.
  - vm_compute; discriminate.
Defined.

(** X15. Two additions in a row add up: the flattened value after adding
    [n] and then [m] is the start plus [n + m], also when the first
    addition left 10^9 nanoseconds. *)
Theorem timespec_add_nsecs_twice (n m : nsecs_elapsed_t) (w : timespec) :
  normalized w -> in_u64 n -> in_u64 m ->
  - two63 <= tv_sec w ->
  tv_sec w + n / NS_PER_SEC + m / NS_PER_SEC + 2 < two63 ->
  flat (timespec_add_nsecs m (timespec_add_nsecs n w)) = flat w + n + m.
Proof.
  intros Hn Hu Hv Hlo Hhi.
  pose proof (div_NS_range n Hu) as Hq. pose proof (mod_NS_range n) as Hr.
  pose proof (div_NS_range m Hv) as Hq'. pose proof (mod_NS_range m) as Hr'.
  pose proof (Z.div_mod n NS_PER_SEC) as D.
  pose proof (Z.div_mod m NS_PER_SEC) as D'.
  unfold normalized in Hn.
  rewrite (timespec_add_nsecs_eq n w) by (auto; lia).
  destruct (tv_nsec w + n mod NS_PER_SEC >? NS_PER_SEC) eqn:C.
  - rewrite timespec_add_nsecs_eq; cbn [tv_sec tv_nsec]; auto; try lia.
    match goal with |- context [if ?c then _ else _] => destruct c end;
      unfold flat; cbn [tv_sec tv_nsec]; unfold NS_PER_SEC in *; lia.
  - rewrite timespec_add_nsecs_eq; cbn [tv_sec tv_nsec]; auto; try lia.
    match goal with |- context [if ?c then _ else _] => destruct c end;
      unfold flat; cbn [tv_sec tv_nsec]; unfold NS_PER_SEC in *; lia.
Qed.

Lemma timespec_add_nsecs_twice_witness :
  flat (timespec_add_nsecs 1
          (timespec_add_nsecs 500000000
             {| tv_sec := 10; tv_nsec := 500000000 |}))
  = flat {| tv_sec := 10; tv_nsec := 500000000 |} + 500000000 + 1.
Proof.
  apply (timespec_add_nsecs_twice 500000000 1
           {| tv_sec := 10; tv_nsec := 500000000 |}).
  - unfold normalized, NS_PER_SEC; simpl; lia.
  - unfold in_u64, two64; lia.
  - unfold in_u64, two64; lia.
  - unfold two63; simpl; lia.
  - vm_compute; reflexivity.
Defined.

Lemma timespec_add_nsecs_nsec_bound_witness :
  0 <= tv_nsec (timespec_add_nsecs 500000000
                  {| tv_sec := 10; tv_nsec := 500000000 |}) <= NS_PER_SEC
  /\ (tv_nsec (timespec_add_nsecs 500000000
                 {| tv_sec := 10; tv_nsec := 500000000 |}) = NS_PER_SEC
      <-> 500000000 + 500000000 mod NS_PER_SEC = NS_PER_SEC).
Proof.
  apply (timespec_add_nsecs_nsec_bound 500000000
           {| tv_sec := 10; tv_nsec := 500000000 |}).
  - unfold normalized, NS_PER_SEC; simpl; lia.
  - unfold in_u64, two64; lia.
  - unfold two63; simpl; lia.
  - vm_compute; reflexivity.
Defined.

Lemma timespec_sub_nsecs_no_borrow_witness :
  flat (timespec_sub_nsecs 3100000000
          {| tv_sec := 10; tv_nsec := 100000000 |})
  = flat {| tv_sec := 10; tv_nsec := 100000000 |} - 3100000000.
Proof.
  apply (timespec_sub_nsecs_no_borrow 3100000000
           {| tv_sec := 10; tv_nsec := 100000000 |}).
  - unfold normalized, NS_PER_SEC; simpl; lia.
  - unfold in_u64, two64; lia.
  - unfold two63; simpl; lia.
  - vm_compute; discriminate.
  - vm_compute; discriminate.
Defined.

Lemma timespec_sub_nsecs_borrow_witness :
  flat (timespec_sub_nsecs 300000000
          {| tv_sec := 10; tv_nsec := 100000000 |})
  = flat {| tv_sec := 10; tv_nsec := 100000000 |} - 300000000
    + (2 * (300000000 mod NS_PER_SEC - 100000000) - NS_PER_SEC).
Proof.
  apply (timespec_sub_nsecs_borrow 300000000
           {| tv_sec := 10; tv_nsec := 100000000 |}).
  - unfold normalized, NS_PER_SEC; simpl; lia.
  - unfold in_u64, two64; lia.
  - unfold two63; simpl; lia.
  - vm_compute; discriminate.
  - vm_compute; reflexivity.
Defined.

Lemma timespec_sub_nsecs_normalized_witness :
  normalized (timespec_sub_nsecs 300000000
                {| tv_sec := 10; tv_nsec := 100000000 |}).
Proof.
  apply (timespec_sub_nsecs_normalized 300000000
           {| tv_sec := 10; tv_nsec := 100000000 |}).
  - unfold normalized, NS_PER_SEC; simpl; lia.
  - unfold in_u64, two64; lia.
  - unfold two63; simpl; lia.
  - vm_compute; discriminate.
Defined.

(** * Further properties of the bounded string helpers *)

Lemma strlen_app_NUL (t rest : list byte) :
  c_str t = t -> strlen (t ++ NUL :: rest) = Some (Z.of_nat (List.length t)).
Proof.
  induction t as [|c t IH]; intros H.
  - reflexivity.
  - cbn [c_str] in H. cbn [app strlen List.length].
    destruct (Byte.eqb c NUL); [discriminate|].
    inversion H as [H']. rewrite H'. rewrite (IH H'). f_equal. lia.
Qed.

Lemma c_str_app (t1 t2 : list byte) :
  c_str t1 = t1 -> c_str (t1 ++ t2) = t1 ++ c_str t2.
Proof.
  induction t1 as [|c t IH]; intros H; [reflexivity|].
  cbn [c_str] in H. cbn [app c_str].
  destruct (Byte.eqb c NUL); [discriminate|].
  inversion H as [H']. rewrite H'. now rewrite (IH H').
Qed.

Lemma c_str_at_NUL (rest : list byte) : c_str (NUL :: rest) = [].
Proof. reflexivity. Qed.

Lemma skipn_exact (l1 l2 : list byte) (k : nat) :
  List.length l1 = k -> skipn k (l1 ++ l2) = l2.
Proof.
  intros <-. rewrite skipn_app, Nat.sub_diag, skipn_all2 by lia. reflexivity.
Qed.

(** A buffer is its string, the terminator and what follows. *)
Lemma strlen_rebuild (s : list byte) (n : Z) :
  strlen s = Some n -> c_str s ++ NUL :: skipn (Z.to_nat (n + 1)) s = s.
Proof.
  intros H. destruct (strlen_firstn s n H) as (F & _ & _).
  pose proof (firstn_skipn (Z.to_nat (n + 1)) s) as E.
  rewrite F, <- app_assoc in E. exact E.
Qed.

(** X16. A successful [strmaxcpy]: when the source, of a length that fits
    an [int] with its terminator, is shorter than [dest_size], the size of
    the buffer, the call returns 0; the buffer then holds the source string,
    terminated, has the size it had, and its bytes after the terminator are
    untouched. *)
Theorem strmaxcpy_fits (dest src : list byte) (dest_size n : Z) :
  Z.of_nat (List.length dest) = dest_size ->
  strlen src = Some n -> n < two31 - 1 -> n < dest_size ->
  exists dest',
    strmaxcpy dest src dest_size = Done (0, dest')
    /\ strlen dest' = Some n
    /\ c_str dest' = c_str src
    /\ List.length dest' = List.length dest
    /\ skipn (Z.to_nat (n + 1)) dest' = skipn (Z.to_nat (n + 1)) dest.
Proof.
  intros Hd Hs Hn Hfit. pose proof (strlen_nonneg src n Hs) as H0.
  destruct (strlen_firstn src n Hs) as (F & L & B).
  rewrite (strmaxcpy_in_range dest src dest_size n Hd Hs Hn).
  replace (n <? dest_size) with true by lia.
  eexists. split; [reflexivity|]. cbn [app].
  repeat split.
  - rewrite strlen_app_NUL by apply c_str_idem. now rewrite L.
  - rewrite c_str_app by apply c_str_idem.
    now rewrite c_str_at_NUL, app_nil_r.
  - rewrite length_app. cbn [List.length]. rewrite length_skipn. lia.
  - change (c_str src ++ NUL :: ?r) with (c_str src ++ [NUL] ++ r).
    rewrite app_assoc. apply skipn_exact.
    rewrite length_app. cbn [List.length]. lia.
Qed.

Lemma strmaxcpy_fits_witness :
  exists dest',
    strmaxcpy (bytes_of "wxyz") (bytes_of "hi" ++ [NUL]) 4 = Done (0, dest')
    /\ strlen dest' = Some 2
    /\ c_str dest' = c_str (bytes_of "hi" ++ [NUL])
    /\ List.length dest' = List.length (bytes_of "wxyz")
    /\ skipn (Z.to_nat (2 + 1)) dest'
       = skipn (Z.to_nat (2 + 1)) (bytes_of "wxyz").
Proof.
  apply (strmaxcpy_fits (bytes_of "wxyz") (bytes_of "hi" ++ [NUL]) 4 2).
  - reflexivity.
  - reflexivity.
  - unfold two31; lia.
  - lia.
Defined.

(** X17. [strmaxcpy] turns down every source below 2^32 bytes that does not
    fit: when [dest_size] (at most 2^63) is not above the length of the
    source, the result is -1 and the buffer is as it was -- whatever the
    buffer is, and also for lengths from 2^31 on, where [len] is
    negative. *)
Theorem strmaxcpy_rejects (dest src : list byte) (dest_size n : Z) :
  strlen src = Some n -> n < two32 ->
  dest_size <= n -> dest_size <= two63 ->
  strmaxcpy dest src dest_size = Done (-1, dest).
Proof.
  intros Hs Hn Hsz Hmax. pose proof (strlen_nonneg src n Hs) as H0.
  unfold strmaxcpy. rewrite Hs. cbv zeta.
  assert (E : dest_size <= u64 (s32 n)).
  { unfold u64, s32, two64, two63, two32, two31 in *.
    Z.div_mod_to_equations. lia. }
  replace (u64 (s32 n) >=? dest_size) with true by lia. reflexivity.
Qed.

Lemma strmaxcpy_rejects_witness :
  strmaxcpy (bytes_of "wx") (bytes_of "hi" ++ [NUL]) 2
  = Done (-1, bytes_of "wx").
Proof.
  apply (strmaxcpy_rejects (bytes_of "wx") (bytes_of "hi" ++ [NUL]) 2 2).
  - reflexivity.
  - unfold two32; lia.
  - lia.
  - unfold two63; lia.
Defined.

(** X18. What [strmaxcpy] does is decided by the length of the source as an
    [int]: when the converted length [len] is between 0 and [INT_MAX - 1],
    the call compares [len], not the length, with [dest_size], and on
    success the buffer starts with the first [len + 1] bytes of the
    source. *)
Theorem strmaxcpy_by_int_length (dest src : list byte) (dest_size n : Z) :
  Z.of_nat (List.length dest) = dest_size ->
  strlen src = Some n -> 0 <= s32 n < two31 - 1 ->
  strmaxcpy dest src dest_size
  = if s32 n <? dest_size
    then Done (0, firstn (Z.to_nat (s32 n + 1)) src
                  ++ skipn (Z.to_nat (s32 n + 1)) dest)
    else Done (-1, dest).
Proof.
  intros Hd Hs Hl. pose proof (strlen_nonneg src n Hs) as H0.
  destruct (strlen_firstn src n Hs) as (_ & _ & B).
  assert (Hle : s32 n <= n).
  { unfold s32, two32, two31 in *. Z.div_mod_to_equations. lia. }
  unfold strmaxcpy. rewrite Hs. cbv zeta.
  set (len := s32 n) in *.
  rewrite (s32_small (len + 1)) by (unfold in_s32, two31 in *; lia).
  rewrite (u64_small len), (u64_small (len + 1))
    by (unfold in_u64, two64, two31 in *; lia).
  rewrite Z.geb_leb.
  destruct (len <? dest_size) eqn:C.
  - replace (dest_size <=? len) with false by lia.
    unfold memcpy.
    replace ((0 <=? 0) && (0 + (len + 1) <=? Z.of_nat (List.length dest))
             && (len + 1 <=? Z.of_nat (List.length src))) with true by lia.
    rewrite Z.add_0_l. reflexivity.
  - replace (dest_size <=? len) with true by lia. reflexivity.
Qed.

Lemma strmaxcpy_by_int_length_witness :
  strmaxcpy (bytes_of "wxyz") (bytes_of "hi" ++ [NUL]) 4
  = if s32 2 <? 4
    then Done (0, firstn (Z.to_nat (s32 2 + 1)) (bytes_of "hi" ++ [NUL])
                  ++ skipn (Z.to_nat (s32 2 + 1)) (bytes_of "wxyz"))
    else Done (-1, bytes_of "wxyz").
Proof.
  apply (strmaxcpy_by_int_length (bytes_of "wxyz")
           (bytes_of "hi" ++ [NUL]) 4 2).
  - reflexivity.
  - reflexivity.
  - vm_compute. split; discriminate || reflexivity.
Defined.

Lemma strlen_zero_c_str (s : list byte) : strlen s = Some 0 -> c_str s = [].
Proof.
  intros H. destruct (strlen_firstn s 0 H) as (_ & L & _).
  destruct (c_str s); [reflexivity|]. cbn [List.length] in L. lia.
Qed.

(** X19. A successful [strmaxcat]: in a buffer of [dest_size] bytes (a size
    that fits an [int]) holding a string, when that string, the source and a
    terminator fit [dest_size], the call returns 0; the buffer then holds
    the old string followed by the source, terminated, and has the size it
    had. *)
Theorem strmaxcat_fits (dest src : list byte) (dest_size nd ns : Z) :
  Z.of_nat (List.length dest) = dest_size -> dest_size < two31 ->
  strlen dest = Some nd -> strlen src = Some ns -> ns < two31 - 1 ->
  nd + ns < dest_size ->
  exists dest',
    strmaxcat dest src dest_size = Done (0, dest')
    /\ strlen dest' = Some (nd + ns)
    /\ c_str dest' = c_str dest ++ c_str src
    /\ List.length dest' = List.length dest.
Proof.
  intros Hd Hsz Hnd Hns Hn Hfit.
  pose proof (strlen_nonneg dest nd Hnd) as H0.
  pose proof (strlen_nonneg src ns Hns) as H1.
  destruct (strlen_firstn dest nd Hnd) as (_ & Ld & _).
  destruct (strlen_firstn src ns Hns) as (_ & Ls & _).
  rewrite (strmaxcat_in_range dest src dest_size nd ns Hd Hsz Hnd Hns Hn).
  replace (nd + ns <? dest_size) with true by lia.
  eexists. split; [reflexivity|]. cbn [app].
  assert (T : c_str (c_str dest ++ c_str src) = c_str dest ++ c_str src).
  { rewrite c_str_app by apply c_str_idem. now rewrite c_str_idem. }
  rewrite !app_assoc. repeat split.
  - rewrite (strlen_app_NUL _ _ T), length_app. f_equal. lia.
  - rewrite (c_str_app _ _ T). now rewrite c_str_at_NUL, app_nil_r.
  - rewrite !length_app. cbn [List.length]. rewrite length_skipn. lia.
Qed.

Lemma strmaxcat_fits_witness :
  exists dest',
    strmaxcat (bytes_of "oh " ++ [NUL; x77; x78; x79; x7a])
              (bytes_of "hi" ++ [NUL]) 8 = Done (0, dest')
    /\ strlen dest' = Some (3 + 2)
    /\ c_str dest'
       = c_str (bytes_of "oh " ++ [NUL; x77; x78; x79; x7a])
         ++ c_str (bytes_of "hi" ++ [NUL])
    /\ List.length dest'
       = List.length (bytes_of "oh " ++ [NUL; x77; x78; x79; x7a]).
Proof.
  apply (strmaxcat_fits (bytes_of "oh " ++ [NUL; x77; x78; x79; x7a])
           (bytes_of "hi" ++ [NUL]) 8 3 2).
  - reflexivity.
  - unfold two31; lia.
  - reflexivity.
  - reflexivity.
  - unfold two31; lia.
  - lia.
Defined.

(** X20. [strmaxcat] turns down what does not fit: for a [dest_size] and
    lengths that fit an [int], when the string in the buffer and the source
    together reach [dest_size], the result is -1 and the buffer is as it
    was -- also when [dest_size] is smaller than the string already
    there. *)
Theorem strmaxcat_rejects (dest src : list byte) (dest_size nd ns : Z) :
  0 <= dest_size < two31 ->
  strlen dest = Some nd -> nd < two31 ->
  strlen src = Some ns -> ns < two31 ->
  dest_size <= nd + ns ->
  strmaxcat dest src dest_size = Done (-1, dest).
Proof.
  intros Hsz Hnd Hd Hns Hs Hfull.
  pose proof (strlen_nonneg dest nd Hnd) as H0.
  pose proof (strlen_nonneg src ns Hns) as H1.
  unfold strmaxcat. rewrite Hnd, Hns. cbv zeta.
  rewrite (s32_small nd) by (unfold in_s32, two31 in *; lia).
  rewrite (s32_small ns) by (unfold in_s32, two31 in *; lia).
  rewrite (u64_small nd) by (unfold in_u64, two64, two31 in *; lia).
  assert (E : s32 (u64 (dest_size - nd)) = dest_size - nd).
  { unfold u64, s32, two64, two32, two31 in *.
    Z.div_mod_to_equations. lia. }
  rewrite E. replace (dest_size - nd <=? ns) with true by lia.
  reflexivity.
Qed.

Lemma strmaxcat_rejects_witness :
  strmaxcat (bytes_of "oh dear" ++ [NUL]) (bytes_of "hi" ++ [NUL]) 4
  = Done (-1, bytes_of "oh dear" ++ [NUL]).
Proof.
  apply (strmaxcat_rejects (bytes_of "oh dear" ++ [NUL])
           (bytes_of "hi" ++ [NUL]) 4 7 2).
  - unfold two31; lia.
  - reflexivity.
  - unfold two31; lia.
  - reflexivity.
  - unfold two31; lia.
  - lia.
Defined.

(** X21. Appending the empty string succeeds and leaves every byte of the
    buffer as it was. *)
Theorem strmaxcat_empty_src (dest src : list byte) (dest_size nd : Z) :
  Z.of_nat (List.length dest) = dest_size -> dest_size < two31 ->
  strlen dest = Some nd -> strlen src = Some 0 ->
  strmaxcat dest src dest_size = Done (0, dest).
Proof.
  intros Hd Hsz Hnd Hns.
  destruct (strlen_firstn dest nd Hnd) as (_ & _ & B).
  rewrite (strmaxcat_in_range dest src dest_size nd 0 Hd Hsz Hnd Hns)
    by (unfold two31; lia).
  replace (nd + 0 <? dest_size) with true by lia.
  rewrite (strlen_zero_c_str src Hns), Z.add_0_r. cbn [app].
  now rewrite (strlen_rebuild dest nd Hnd).
Qed.

Lemma strmaxcat_empty_src_witness :
  strmaxcat (bytes_of "oh" ++ [NUL; x7a]) [NUL; x61] 4
  = Done (0, bytes_of "oh" ++ [NUL; x7a]).
Proof.
  apply (strmaxcat_empty_src (bytes_of "oh" ++ [NUL; x7a]) [NUL; x61] 4 2).
  - reflexivity.
  - unfold two31; lia.
  - reflexivity.
  - reflexivity.
Defined.

(** X22. Copy, then append: after a [strmaxcpy] of [a] that fits, a
    [strmaxcat] of [b] into the same buffer gives the text of [a] followed
    by that of [b] when both and a terminator fit [dest_size]; when they do
    not, it returns -1 and the buffer keeps the text of [a]. *)
Theorem strmaxcpy_then_strmaxcat (dest a b : list byte)
        (dest_size na nb : Z) :
  Z.of_nat (List.length dest) = dest_size -> dest_size < two31 ->
  strlen a = Some na -> strlen b = Some nb -> nb < two31 - 1 ->
  na < dest_size ->
  exists d1,
    strmaxcpy dest a dest_size = Done (0, d1)
    /\ c_str d1 = c_str a
    /\ (na + nb < dest_size ->
        exists d2, strmaxcat d1 b dest_size = Done (0, d2)
                   /\ c_str d2 = c_str a ++ c_str b)
    /\ (dest_size <= na + nb -> strmaxcat d1 b dest_size = Done (-1, d1)).
Proof.
  intros Hd Hsz Ha Hb Hnb Hfit.
  pose proof (strlen_nonneg a na Ha) as H0.
  pose proof (strlen_nonneg b nb Hb) as H1.
  destruct (strlen_firstn a na Ha) as (_ & La & _).
  rewrite (strmaxcpy_in_range dest a dest_size na Hd Ha)
    by (unfold two31 in *; lia).
  replace (na <? dest_size) with true by lia. cbn [app].
  set (d1 := c_str a ++ NUL :: skipn (Z.to_nat (na + 1)) dest).
  assert (S1 : strlen d1 = Some na).
  { subst d1. rewrite strlen_app_NUL by apply c_str_idem. now rewrite La. }
  assert (C1 : c_str d1 = c_str a).
  { subst d1. rewrite c_str_app by apply c_str_idem.
    now rewrite c_str_at_NUL, app_nil_r. }
  assert (L1 : Z.of_nat (List.length d1) = dest_size).
  { subst d1. rewrite length_app. cbn [List.length].
    rewrite length_skipn. lia. }
  exists d1. split; [reflexivity|]. split; [exact C1|].
  rewrite (strmaxcat_in_range d1 b dest_size na nb L1 Hsz S1 Hb Hnb).
  split; intros Hc.
  - replace (na + nb <? dest_size) with true by lia.
    eexists. split; [reflexivity|]. rewrite C1. cbn [app].
    assert (T : c_str (c_str a ++ c_str b) = c_str a ++ c_str b).
    { rewrite c_str_app by apply c_str_idem. now rewrite c_str_idem. }
    rewrite app_assoc, (c_str_app _ _ T).
    now rewrite c_str_at_NUL, app_nil_r.
  - replace (na + nb <? dest_size) with false by lia. reflexivity.
Qed.

Lemma strmaxcpy_then_strmaxcat_witness :
  exists d1,
    strmaxcpy (bytes_of "wxyzwxyz") (bytes_of "oh " ++ [NUL]) 8
    = Done (0, d1)
    /\ c_str d1 = c_str (bytes_of "oh " ++ [NUL])
    /\ (3 + 2 < 8 ->
        exists d2, strmaxcat d1 (bytes_of "hi" ++ [NUL]) 8 = Done (0, d2)
                   /\ c_str d2 = c_str (bytes_of "oh " ++ [NUL])
                                 ++ c_str (bytes_of "hi" ++ [NUL]))
    /\ (8 <= 3 + 2 ->
        strmaxcat d1 (bytes_of "hi" ++ [NUL]) 8 = Done (-1, d1)).
Proof.
  apply (strmaxcpy_then_strmaxcat (bytes_of "wxyzwxyz")
           (bytes_of "oh " ++ [NUL]) (bytes_of "hi" ++ [NUL]) 8 3 2).
  - reflexivity.
  - unfold two31; lia.
  - reflexivity.
  - reflexivity.
  - unfold two31; lia.
  - lia.
Defined.

(** * Further properties of the logging wrappers and the clock *)

Section Sequences.

Context {P : Platform}.

(** X23. Two wrappers one after the other: when both primitives succeed,
    the log grows by the two full-debug calls in the order of the wrappers
    and the platform has seen both primitives; when the first primitive
    fails, the process aborts after its critical call and the second
    primitive is never called. *)
Theorem run_sync_sequence (op1 op2 : sync_op) (cs1 cs2 : call_site)
        (s : state) (rc1 rc2 : Z) (w1 w2 : world) :
  primitive op1 (st_world s) = (rc1, w1) ->
  primitive op2 w1 = (rc2, w2) ->
  (rc1 = 0 -> rc2 = 0 ->
   exists d1 d2,
     bind (run_sync op1 cs1) (fun _ => run_sync op2 cs2) s
     = (Returned tt, {| st_world := w2; st_log := st_log s ++ [d1; d2] |})
     /\ log_level d1 = NIV_FULL_DEBUG
     /\ log_args d1 = site_args (sync_object op1) cs1
     /\ log_level d2 = NIV_FULL_DEBUG
     /\ log_args d2 = site_args (sync_object op2) cs2)
  /\ (rc1 <> 0 ->
      exists d1,
        bind (run_sync op1 cs1) (fun _ => run_sync op2 cs2) s
        = (Aborted, {| st_world := w1; st_log := st_log s ++ [d1] |})
        /\ log_level d1 = NIV_CRIT
        /\ log_args d1 = ArgInt rc1 :: site_args (sync_object op1) cs1).
Proof.
  intros E1 E2.
  destruct (run_sync_body op1 cs1 s rc1 w1 E1) as (f1 & g1 & R1).
  split.
  - intros -> ->. simpl in R1.
    match type of R1 with
    | _ = (_, ?s1) =>
        destruct (run_sync_body op2 cs2 s1 0 w2 E2) as (f2 & g2 & R2)
    end.
    simpl in R2. unfold bind. rewrite R1, R2.
    cbn [st_log]. rewrite <- app_assoc. cbn [app].
    eexists. eexists. split; [reflexivity|]. repeat split.
  - intros Hrc. apply Z.eqb_neq in Hrc. rewrite Hrc in R1.
    unfold bind. rewrite R1.
    eexists. split; [reflexivity|]. split; reflexivity.
Qed.

End Sequences.

Lemma run_sync_sequence_witness :
  (exists d1 d2,
      bind (run_sync (MUTEX_lock 4096) here)
           (fun _ => run_sync (MUTEX_unlock 4096) here) (at_call 0 [])
      = (Returned tt, at_call 2 ([] ++ [d1; d2]))
      /\ log_level d1 = NIV_FULL_DEBUG
      /\ log_args d1 = site_args 4096 here
      /\ log_level d2 = NIV_FULL_DEBUG
      /\ log_args d2 = site_args 4096 here)
  /\ (exists d1,
         bind (run_sync (MUTEX_lock 0) here)
              (fun _ => run_sync (MUTEX_unlock 4096) here) (at_call 0 [])
         = (Aborted, at_call 1 ([] ++ [d1]))
         /\ log_level d1 = NIV_CRIT
         /\ log_args d1 = ArgInt 22 :: site_args 0 here).
Proof.
  split.
  - apply (proj1 (run_sync_sequence
                    (P := counting_platform)
                    (MUTEX_lock 4096) (MUTEX_unlock 4096) here here
                    (at_call 0 []) 0 0 1%nat 2%nat eq_refl eq_refl));
      reflexivity.
  - apply (proj2 (run_sync_sequence
                    (P := counting_platform)
                    (MUTEX_lock 0) (MUTEX_unlock 4096) here here
                    (at_call 0 []) 22 0 1%nat 2%nat eq_refl eq_refl)).
    discriminate.
Defined.

Lemma now_NDEBUG_witness :
  now true {| tv_sec := 7; tv_nsec := 7 |} (at_call 3 [])
  = (Returned {| tv_sec := 7; tv_nsec := 7 |},
     at_call 4 ([] ++ [mk_log_call NIV_CRIT COMPONENT_MAIN
                         "Failed to get timestamp" []])).
Proof.
  apply (now_NDEBUG (P := counting_platform)
           {| tv_sec := 7; tv_nsec := 7 |} (at_call 3 [])
           (-1) {| tv_sec := 7; tv_nsec := 7 |} 4%nat eq_refl).
  discriminate.
Defined.
